(** * fbr-shop: the file-backed CRUD layer of [server/server.js]

    A shallow embedding of the Express handlers over the two JSON files
    [data/products.json] and [data/users.json], and the properties of the
    resource layer proved about it.

    How the program is modelled:

    - A JSON value is a [json]. A JSON object is a finite map from keys to
      values ([gmap string json]): two objects with the same fields are the
      same record, whatever the order the fields were written in. Arrays
      are lists, in file order.
    - A number is the integer it denotes ([Z]); [NaN] and [-Infinity] only
      appear as results of numeric operations ([number]). The arithmetic
      of doubles is the arithmetic of integers up to 2^53
      ([safe_integer]), the range a product id is taken from.
    - A string is its sequence of bytes (UTF-8).
    - [undefined] is [None] where a property is read.
    - A handler is a computation [M response] over a [world]: the disk,
      and a journal of the writes and console messages made so far. A
      thrown exception is the result [Throw]; Express answers it with
      status 500.
    - The conversion of strings, arrays and objects to numbers inside
      [Math.max] is a parameter of the create handler ([coerce]). The limit
      an engine puts on the number of arguments of a call is not modelled. *)

From Stdlib Require Import ZArith Ascii.
From stdpp Require Import gmap strings list fin_maps pretty.

#[local] Set Warnings "-register-all".
#[local] Open Scope Z_scope.

(** ** Values *)

Inductive json : Type :=
| JNull
| JBool (b : bool)
| JNum (z : Z)
| JStr (s : string)
| JArr (l : list json)
| JObj (m : gmap string json).

(** A record of a collection: the fields of a JSON object. *)
Abbreviation record := (gmap string json).

(** The result of [parseInt], [Math.max] and [+] on numbers.
    [Math.max()] of no argument at all is [-Infinity]. *)
Inductive number : Type :=
| NaN
| NegInfinity
| Num (z : Z).

(** What [JSON.stringify] writes for a number held in an object: [NaN]
    and the infinities are serialised as [null]. Both the file and the response body are
    produced by [JSON.stringify]. *)
Definition json_of_number (n : number) : json :=
  match n with
  | NaN | NegInfinity => JNull
  | Num z => JNum z
  end.

(** [Number.isSafeInteger]. *)
Definition safe_integer (z : Z) : Prop := Z.abs z < 2 ^ 53.

(** ** Exceptions, the world and the handler monad *)

Inductive error : Type :=
| TypeError
| SyntaxError
| ENOENT
| EACCES
| EISDIR.

Inductive result (A : Type) : Type :=
| Ok (a : A)
| Throw (e : error).
Arguments Ok {A} a.
Arguments Throw {A} e.

(** The text of a file, as far as [JSON.parse] tells texts apart: it is
    the serialisation of a JSON value, or it is not JSON. *)
Inductive text : Type :=
| Garbage
| Encodes (v : json).

(** An entry of the disk: a directory, or a regular file with its read and
    write permissions. A path that is not bound does not exist. *)
Inductive node : Type :=
| Directory
| File (readable writable : bool) (t : text).

Inductive event : Type :=
| Written (path : string) (t : text)
| ConsoleError (path : string) (e : error).

Record world : Type := World {
  disk : gmap string node;
  journal : list event
}.

Definition M (A : Type) : Type := world → result A * world.

#[export] Instance M_ret : MRet M := λ A a w, (Ok a, w).

#[export] Instance M_bind : MBind M := λ A B f m w,
  match m w with
  | (Ok a, w') => f a w'
  | (Throw e, w') => (Throw e, w')
  end.

#[export] Instance result_ret : MRet result := λ A a, Ok a.

#[export] Instance result_bind : MBind result := λ A B f r,
  match r with
  | Ok a => f a
  | Throw e => Throw e
  end.

Definition throw {A : Type} (e : error) : M A := λ w, (Throw e, w).

(** [try { body } catch (error) { handler }] *)
Definition try_catch {A : Type} (body : M A) (handler : error → M A) : M A :=
  λ w,
    match body w with
    | (Ok a, w') => (Ok a, w')
    | (Throw e, w') => handler e w'
    end.

(** A pure computation that may throw, run inside a handler. *)
Definition lift {A : Type} (r : result A) : M A := λ w, (r, w).

(** ** The file system and the console *)

Definition readFileSync (path : string) : M text := λ w,
  match disk w !! path with
  | None => (Throw ENOENT, w)
  | Some Directory => (Throw EISDIR, w)
  | Some (File true _ t) => (Ok t, w)
  | Some (File false _ _) => (Throw EACCES, w)
  end.

(** [fs.writeFileSync] replaces the whole content of a writable file and
    creates a missing one (the [data] directory exists). *)
Definition writeFileSync (path : string) (t : text) : M unit := λ w,
  let written r wr :=
    (Ok (), {| disk := <[path := File r wr t]> (disk w);
               journal := journal w ++ [Written path t] |}) in
  match disk w !! path with
  | None => written true true
  | Some Directory => (Throw EISDIR, w)
  | Some (File r true _) => written r true
  | Some (File _ false _) => (Throw EACCES, w)
  end.

Definition console_error (path : string) (e : error) : M unit := λ w,
  (Ok (), {| disk := disk w; journal := journal w ++ [ConsoleError path e] |}).

Definition JSON_parse (t : text) : M json :=
  match t with
  | Garbage => throw SyntaxError
  | Encodes v => mret v
  end.

Definition JSON_stringify (v : json) : text := Encodes v.

(** ** The resource store (server.js, lines 54-72) *)

Definition dataPath : string := "data/products.json".
Definition usersPath : string := "data/users.json".

Definition readData (filePath : string) : M json :=
  try_catch
    (t ← readFileSync filePath; JSON_parse t)
    (λ error, console_error filePath error;; mret (JArr [])).

Definition writeData (filePath : string) (data : json) : M unit :=
  try_catch
    (writeFileSync filePath (JSON_stringify data))
    (λ error, console_error filePath error).

(** ** The JavaScript operations the handlers use *)

(** [p.id]. Reading a property of [null] throws; an object answers with
    its own field, or [undefined]; numbers, strings, booleans and arrays
    have no property of that name. *)
Definition dot_id (p : json) : result (option json) :=
  match p with
  | JNull => Throw TypeError
  | JObj m => Ok (m !! "id")
  | _ => Ok None
  end.

(** [if (v)] for a JSON value. *)
Definition truthy (v : json) : bool :=
  match v with
  | JNull => false
  | JBool b => b
  | JNum z => bool_decide (z ≠ 0)
  | JStr s => bool_decide (s ≠ "")
  | JArr _ | JObj _ => true
  end.

(** [v === n] for a number [n]: no conversion, and [NaN] equals nothing. *)
Definition strict_eq_number (v : option json) (n : number) : bool :=
  match v, n with
  | Some (JNum z), Num z' => bool_decide (z = z')
  | _, _ => false
  end.

(** [v === s] for a string [s]. *)
Definition strict_eq_string (v : option json) (s : string) : bool :=
  match v with
  | Some (JStr s') => bool_decide (s' = s)
  | _ => false
  end.

(** *** parseInt *)

Definition code (a : ascii) : Z := Z.of_N (Ascii.N_of_ascii a).

(** TAB, LF, VT, FF, CR and SPACE. *)
Definition white1 (a : ascii) : bool :=
  bool_decide (9 ≤ code a ≤ 13) || bool_decide (code a = 32).

(** U+00A0 in UTF-8. *)
Definition white2 (a b : ascii) : bool :=
  bool_decide (code a = 194 ∧ code b = 160).

(** U+1680, U+2000 to U+200A, U+2028, U+2029, U+202F, U+205F, U+3000 and
    U+FEFF in UTF-8. *)
Definition white3 (a b c : ascii) : bool :=
  bool_decide (code a = 225 ∧ code b = 154 ∧ code c = 128)
  || bool_decide (code a = 226 ∧ code b = 128 ∧
                  (128 ≤ code c ≤ 138 ∨ code c = 168 ∨ code c = 169 ∨ code c = 175))
  || bool_decide (code a = 226 ∧ code b = 129 ∧ code c = 159)
  || bool_decide (code a = 227 ∧ code b = 128 ∧ code c = 128)
  || bool_decide (code a = 239 ∧ code b = 187 ∧ code c = 191).

(** Leading white space and line terminators are skipped. *)
Fixpoint trim_start (s : string) : string :=
  match s with
  | String a s1 =>
      if white1 a then trim_start s1 else
      match s1 with
      | String b s2 =>
          if white2 a b then trim_start s2 else
          match s2 with
          | String c s3 => if white3 a b c then trim_start s3 else s
          | EmptyString => s
          end
      | EmptyString => s
      end
  | EmptyString => s
  end.

(** The value of a digit in the given radix: [0-9], then [a-z] or [A-Z]. *)
Definition digit_value (radix : Z) (a : ascii) : option Z :=
  let c := code a in
  let d :=
    if bool_decide (48 ≤ c ≤ 57) then Some (c - 48)
    else if bool_decide (97 ≤ c ≤ 122) then Some (c - 87)
    else if bool_decide (65 ≤ c ≤ 90) then Some (c - 55)
    else None in
  match d with
  | Some v => if bool_decide (v < radix) then Some v else None
  | None => None
  end.

(** The longest prefix of digits, read most significant digit first;
    [None] when there is no digit at all. *)
Fixpoint digits (radix : Z) (s : string) (acc : option Z) : option Z :=
  match s with
  | String a s' =>
      match digit_value radix a with
      | Some d => digits radix s' (Some (radix * default 0 acc + d))
      | None => acc
      end
  | EmptyString => acc
  end.

(** [parseInt(string)] with no radix argument: white space is skipped, a
    sign is read, a [0x] or [0X] prefix selects radix 16, and the digits
    that follow are read up to the first character that is not one. *)
Definition parseInt (input : string) : number :=
  let s := trim_start input in
  let '(sign, s) :=
    match s with
    | String "-" s' => (-1, s')
    | String "+" s' => (1, s')
    | _ => (1, s)
    end in
  let '(radix, s) :=
    match s with
    | String "0" (String "x" s') | String "0" (String "X" s') => (16, s')
    | _ => (10, s)
    end in
  match digits radix s None with
  | None => NaN
  | Some n => Num (sign * n)
  end.

(** *** Arrays *)

(** [array.findIndex(callback)]; [None] is the index [-1]. The callback is
    run on the elements in order, up to the first it accepts. *)
Fixpoint findIndex_from (callback : json → result bool) (l : list json)
    (i : nat) : result (option nat) :=
  match l with
  | [] => Ok None
  | p :: l' =>
      match callback p with
      | Throw e => Throw e
      | Ok true => Ok (Some i)
      | Ok false => findIndex_from callback l' (S i)
      end
  end.

(** [array.find(callback)]; [None] is [undefined]. *)
Fixpoint find_in (callback : json → result bool) (l : list json)
    : result (option json) :=
  match l with
  | [] => Ok None
  | p :: l' =>
      match callback p with
      | Throw e => Throw e
      | Ok true => Ok (Some p)
      | Ok false => find_in callback l'
      end
  end.

(** A value parsed from JSON has the array methods only if it is an
    array: calling [find], [findIndex], [map] or [push] on anything else
    throws a TypeError. *)
Definition as_array (v : json) : result (list json) :=
  match v with
  | JArr l => Ok l
  | _ => Throw TypeError
  end.

(** *** Object literals with spread *)

(** The properties an array contributes to a spread: its elements under
    their indices. *)
Definition index_props (l : list json) : record :=
  list_to_map (imap (λ (i : nat) v, (pretty i, v)) l).

(** [...v] inside an object literal copies the own enumerable properties
    of [v]: the fields of an object, the elements of an array, the
    characters of a string (here: its bytes); [null], booleans and numbers
    have none. Neither spread of the handlers meets a string: the body
    parser hands over an object or an array, and a record matched by its
    id is an object. *)
Definition spread (v : json) : record :=
  match v with
  | JObj m => m
  | JArr l => index_props l
  | JStr s => index_props ((λ a, JStr (String a "")) <$> String.list_ascii_of_string s)
  | JNull | JBool _ | JNum _ => ∅
  end.

(** *** Math.max and + 1 *)

Definition max_number (a b : number) : number :=
  match a, b with
  | NaN, _ | _, NaN => NaN
  | NegInfinity, n | n, NegInfinity => n
  | Num x, Num y => Num (Z.max x y)
  end.

(** [Math.max(...args)] on arguments already converted to numbers. *)
Definition Math_max (args : list number) : number :=
  foldl max_number NegInfinity args.

(** [n + 1] *)
Definition plus_one (n : number) : number :=
  match n with
  | NaN => NaN
  | NegInfinity => NegInfinity
  | Num z => Num (z + 1)
  end.

(** ** The HTTP handlers *)

(** What [res.status(n).json(v)] sends; [res.json(v)] sends status 200. *)
Record response : Type := Response {
  status : nat;
  payload : json
}.

(** [{ message: text }] *)
Definition message (text : string) : json := JObj {[ "message" := JStr text ]}.

(** *** Products (server.js, lines 134-313) *)

(** GET /api/products *)
Definition get_products : M response :=
  products ← readData dataPath;
  mret (Response 200 products).

(** GET /api/products/:id *)
Definition get_product (id : string) : M response :=
  products ← readData dataPath;
  product ← lift (l ← as_array products;
                  find_in (λ p, pid ← dot_id p;
                                mret (strict_eq_number pid (parseInt id))) l);
  match product with
  | Some p =>
      if truthy p then mret (Response 200 p)
      else mret (Response 404 (message "Товар не найден"))
  | None => mret (Response 404 (message "Товар не найден"))
  end.

Section Create.

(** [ToNumber] applied to a string, an array or an object goes through
    the string grammar of numbers and through [ToPrimitive]; it is kept
    as a parameter: the results below hold whatever it answers. *)
Variable coerce : json → result number.

(** The conversion [Math.max] applies to each of its arguments. *)
Definition ToNumber (v : option json) : result number :=
  match v with
  | None => Ok NaN
  | Some JNull => Ok (Num 0)
  | Some (JBool b) => Ok (Num (if b then 1 else 0))
  | Some (JNum z) => Ok (Num z)
  | Some (JStr s) => coerce (JStr s)
  | Some (JArr l) => coerce (JArr l)
  | Some (JObj m) => coerce (JObj m)
  end.

(** [products.length > 0 ? Math.max(...products.map(p => p.id)) + 1 : 1] *)
Definition next_id (products : list json) : result number :=
  match products with
  | [] => Ok (Num 1)
  | _ =>
      ids ← mapM dot_id products;
      args ← mapM ToNumber ids;
      mret (plus_one (Math_max args))
  end.

(** POST /api/products. The object literal lists [id] first and the
    spread of the body after it, so a field of the body replaces a field
    of the same name written before it. When the file holds a value that
    is not an array, one of [products.length], [products.map] and
    [products.push] throws a TypeError, and nothing has been written. *)
Definition post_product (body : json) : M response :=
  products ← readData dataPath;
  l ← lift (as_array products);
  id ← lift (next_id l);
  let newProduct := JObj (spread body ∪ {[ "id" := json_of_number id ]}) in
  writeData dataPath (JArr (l ++ [newProduct]));;
  mret (Response 201 newProduct).

End Create.

(** The [id] property of an object literal: a property whose value is
    [undefined] is left out by [JSON.stringify]. *)
Definition set_id (id : option json) (m : record) : record :=
  match id with
  | Some v => <[ "id" := v ]> m
  | None => delete "id" m
  end.

(** [{ ...products[index], ...req.body, id: products[index].id }] *)
Definition merged (l : list json) (index : nat) (body : json) : result json :=
  match l !! index with
  | Some current =>
      id ← dot_id current;
      mret (JObj (set_id id (spread body ∪ spread current)))
  | None => Throw TypeError
  end.

(** PUT /api/products/:id *)
Definition put_product (id : string) (body : json) : M response :=
  products ← readData dataPath;
  l ← lift (as_array products);
  index ← lift (findIndex_from (λ p, pid ← dot_id p;
                                     mret (strict_eq_number pid (parseInt id))) l 0);
  match index with
  | Some i =>
      updated ← lift (merged l i body);
      writeData dataPath (JArr (<[ i := updated ]> l));;
      mret (Response 200 updated)
  | None => mret (Response 404 (message "Товар не найден"))
  end.

(** DELETE /api/products/:id *)
Definition delete_product (id : string) : M response :=
  products ← readData dataPath;
  l ← lift (as_array products);
  index ← lift (findIndex_from (λ p, pid ← dot_id p;
                                     mret (strict_eq_number pid (parseInt id))) l 0);
  match index with
  | Some i =>
      writeData dataPath (JArr (delete i l));;
      mret (Response 200 (message "Товар удален"))
  | None => mret (Response 404 (message "Товар не найден"))
  end.

(** *** Users (server.js, lines 333-493). POST /api/users draws its id
    from [nanoid] and is not needed below. *)

(** GET /api/users *)
Definition get_users : M response :=
  users ← readData usersPath;
  mret (Response 200 users).

(** GET /api/users/:id *)
Definition get_user (id : string) : M response :=
  users ← readData usersPath;
  user ← lift (l ← as_array users;
               find_in (λ u, uid ← dot_id u; mret (strict_eq_string uid id)) l);
  match user with
  | Some u =>
      if truthy u then mret (Response 200 u)
      else mret (Response 404 (message "Пользователь не найден"))
  | None => mret (Response 404 (message "Пользователь не найден"))
  end.

(** PUT /api/users/:id *)
Definition put_user (id : string) (body : json) : M response :=
  users ← readData usersPath;
  l ← lift (as_array users);
  index ← lift (findIndex_from (λ u, uid ← dot_id u;
                                     mret (strict_eq_string uid id)) l 0);
  match index with
  | Some i =>
      updated ← lift (merged l i body);
      writeData usersPath (JArr (<[ i := updated ]> l));;
      mret (Response 200 updated)
  | None => mret (Response 404 (message "Пользователь не найден"))
  end.

(** DELETE /api/users/:id *)
Definition delete_user (id : string) : M response :=
  users ← readData usersPath;
  l ← lift (as_array users);
  index ← lift (findIndex_from (λ u, uid ← dot_id u;
                                     mret (strict_eq_string uid id)) l 0);
  match index with
  | Some i =>
      writeData usersPath (JArr (delete i l));;
      mret (Response 200 (message "Пользователь удален"))
  | None => mret (Response 404 (message "Пользователь не найден"))
  end.

(** *** The two resources side by side *)

Inductive resource : Type :=
| Products
| Users.

Definition store_path (R : resource) : string :=
  match R with
  | Products => dataPath
  | Users => usersPath
  end.

(** The test the handlers of a resource run on a record to find the one
    the path parameter names: [p.id === parseInt(req.params.id)] for
    products, [u.id === req.params.id] for users. *)
Definition id_matches (R : resource) (id : string) (r : record) : bool :=
  match R with
  | Products => strict_eq_number (r !! "id") (parseInt id)
  | Users => strict_eq_string (r !! "id") id
  end.

Definition GET (R : resource) (id : string) : M response :=
  match R with
  | Products => get_product id
  | Users => get_user id
  end.

Definition PUT (R : resource) (id : string) (body : json) : M response :=
  match R with
  | Products => put_product id body
  | Users => put_user id body
  end.

Definition DELETE (R : resource) (id : string) : M response :=
  match R with
  | Products => delete_product id
  | Users => delete_user id
  end.

(** The not-found signal: status 404 and the message of the resource. *)
Definition not_found (R : resource) : response :=
  match R with
  | Products => Response 404 (message "Товар не найден")
  | Users => Response 404 (message "Пользователь не найден")
  end.

(** The confirmation a delete answers with. *)
Definition confirmation (R : resource) : response :=
  match R with
  | Products => Response 200 (message "Товар удален")
  | Users => Response 200 (message "Пользователь удален")
  end.

(** ** Stores and collections *)

(** A collection of records as it is serialised in a file. *)
Definition collection_json (c : list record) : json := JArr (JObj <$> c).

(** The file at [path] is a readable and writable file that holds the
    collection [c]. *)
Definition stores (w : world) (path : string) (c : list record) : Prop :=
  disk w !! path = Some (File true true (Encodes (collection_json c))).

(** [load] of the file at [path] yields the collection [c]: the file holds
    it, or it cannot be read or parsed and [c] is empty. *)
Definition loads (w : world) (path : string) (c : list record) : Prop :=
  (readData path w).1 = Ok (collection_json c).

Definition is_write (e : event) : bool :=
  match e with
  | Written _ _ => true
  | ConsoleError _ _ => false
  end.

(** The writes made so far. *)
Definition writes (w : world) : list event :=
  filter (λ e, is_write e = true) (journal w).

(** A product as the data model has it: its id is an integer. *)
Definition has_integer_id (r : record) : Prop :=
  ∃ z : Z, r !! "id" = Some (JNum z) ∧ safe_integer z.

(** The world after [value] has been saved in a writable file at [path]. *)
Definition saved (w : world) (path : string) (value : json) : world :=
  {| disk := <[ path := File true true (Encodes value) ]> (disk w);
     journal := journal w ++ [Written path (Encodes value)] |}.

(** ** What the handlers do to a collection of records *)

(** What the [try] block of [readData] evaluates to. *)
Definition read_and_parse (path : string) : M json :=
  t ← readFileSync path; JSON_parse t.

(** The first record of the collection that the handlers of [R] match
    against the path parameter [id], with its position. *)
Definition first_match (R : resource) (id : string) (c : list record)
    : option (nat * record) :=
  list_find (λ r, id_matches R id r = true) c.

(** The record an update leaves in place of [r]. *)
Definition updated_record (r : record) (body : json) : record :=
  set_id (r !! "id") (spread body ∪ r).

(** ** The id of a new product in the data model *)

(** The id of a product, read as the data model has it. *)
Definition id_of (r : record) : Z :=
  match r !! "id" with
  | Some (JNum z) => z
  | _ => 0
  end.

(** The largest of [z] and the elements of [zs]. *)
Fixpoint maximum (z : Z) (zs : list Z) : Z :=
  match zs with
  | [] => z
  | z' :: zs' => Z.max z (maximum z' zs')
  end.

(** The id the data model assigns to a new product: the largest id of the
    collection plus one, or 1 when the collection is empty. *)
Definition spec_next_id (c : list record) : Z :=
  match id_of <$> c with
  | [] => 1
  | z :: zs => maximum z zs + 1
  end.

(** The record [{ id: n, ...body }]. *)
Definition created_record (n : Z) (body : json) : record :=
  spread body ∪ {[ "id" := JNum n ]}.

(** ** Decimal numerals *)

Definition digit_char (d : Z) : ascii := ascii_of_N (Z.to_N (48 + d)).

Fixpoint decimal_digits (fuel : nat) (n : Z) : string :=
  match fuel with
  | O => ""
  | S fuel' =>
      (if bool_decide (n < 10) then "" else decimal_digits fuel' (n / 10))
      +:+ String (digit_char (n mod 10)) ""
  end.

(** [String(z)] for an integer: its decimal digits, after a minus sign
    when it is negative. This is how a client writes an id in a path. *)
Definition decimal (z : Z) : string :=
  if bool_decide (z < 0) then String "-" (decimal_digits (S (Z.to_nat (- z))) (- z))
  else decimal_digits (S (Z.to_nat z)) z.

Definition is_digit (a : ascii) : bool := bool_decide (48 ≤ code a ≤ 57).

Fixpoint all_digits (s : string) : bool :=
  match s with
  | EmptyString => true
  | String a s' => is_digit a && all_digits s'
  end.

(** The text does not start with the letter that, after a [0], announces
    a hexadecimal numeral. *)
Definition not_hex_marker (t : string) : Prop :=
  match t with
  | String b _ => b ≠ "x"%char ∧ b ≠ "X"%char
  | EmptyString => True
  end.

(** ** The rest of the server *)

(** POST /api/users (server.js, lines 403-412). [token] is the string
    that [nanoid(6)] returns for this request; like the product handler,
    the object literal lists [id] first and the spread of the body after
    it. *)
Definition post_user (token : string) (body : json) : M response :=
  users ← readData usersPath;
  l ← lift (as_array users);
  let newUser := JObj (spread body ∪ {[ "id" := JStr token ]}) in
  writeData usersPath (JArr (l ++ [newUser]));;
  mret (Response 201 newUser).

(** The first version of the server (its only route is the list of
    products) reads the file without catching anything:
    [const readData = () => JSON.parse(fs.readFileSync(dataPath))]. *)
Definition readData_early : M json :=
  t ← readFileSync dataPath; JSON_parse t.

(** GET /api/products of the first version of the server. *)
Definition get_products_early : M response :=
  products ← readData_early;
  mret (Response 200 products).

(** The list handler of a resource. *)
Definition LIST (R : resource) : M response :=
  match R with
  | Products => get_products
  | Users => get_users
  end.

(** ** Vocabulary of the further properties *)

(** The file at [path] holds the collection [c] and can be read, but not
    written. *)
Definition read_only (w : world) (path : string) (c : list record) : Prop :=
  disk w !! path = Some (File true false (Encodes (collection_json c))).

(** The ids of a collection, in file order; [None] for a record without
    an id field. *)
Definition ids (c : list record) : list (option json) :=
  (λ r, r !! "id") <$> c.

(** The id of the record has the type the handlers of [R] compare with: a
    number for a product, a string for a user. *)
Definition id_of_kind (R : resource) (r : record) : Prop :=
  match R with
  | Products => ∃ z : Z, r !! "id" = Some (JNum z)
  | Users => ∃ s : string, r !! "id" = Some (JStr s)
  end.

(** The record the search of a handler stops at. *)
Definition found (R : resource) (id : string) (c : list record) : option record :=
  snd <$> first_match R id c.

(** The text is made of TAB, LF, VT, FF, CR and SPACE only. *)
Fixpoint blank (s : string) : bool :=
  match s with
  | EmptyString => true
  | String a s' => white1 a && blank s'
  end.

(** The requests of a session, served one after the other. A handler
    that throws is answered with status 500 by Express, and the server
    goes on with the next request. *)
Fixpoint serve (requests : list (M response)) (w : world)
    : list (result response) * world :=
  match requests with
  | [] => ([], w)
  | request :: rest =>
      let '(r, w1) := request w in
      let '(rs, w2) := serve rest w1 in
      (r :: rs, w2)
  end.

(** The world after a request that may change the store: the world after
    the read, or that world after one call of [writeData] on the file. *)
Definition read_then_maybe_written (path : string) (w w' : world) : Prop :=
  w' = (readData path w).2
  ∨ ∃ v, w' = (writeData path v (readData path w).2).2.

(** The world after [writeFileSync] has written [value] at [path]: a file
    that exists keeps its read permission, a new file can be read. *)
Definition saved_as (w : world) (path : string) (value : json) : world :=
  {| disk :=
       <[ path := File match disk w !! path with
                       | Some (File r _ _) => r
                       | _ => true
                       end true (Encodes value) ]> (disk w);
     journal := journal w ++ [Written path (Encodes value)] |}.

(** The create handler of a resource; [coerce] is used by the products
    and [token] by the users. *)
Definition CREATE (R : resource) (coerce : json → result number)
    (token : string) (body : json) : M response :=
  match R with
  | Products => post_product coerce body
  | Users => post_user token body
  end.

(** Between [w] and [w'] no file other than the one at [path] has
    changed, and at most one write has been made, to that file. *)
Definition changes_only (path : string) (w w' : world) : Prop :=
  (∀ p, p ≠ path → disk w' !! p = disk w !! p)
  ∧ (writes w' = writes w
     ∨ ∃ v, writes w' = writes w ++ [Written path (Encodes v)]).

(** What [Math.max] makes of the id of a record that is a number or is
    missing. *)
Definition number_of_id (o : option json) : number :=
  match o with
  | Some (JNum z) => Num z
  | _ => NaN
  end.

(** ** Sample data *)

Definition chess : record :=
  {[ "id" := JNum 1; "name" := JStr "Chess"; "price" := JNum 500 ]}.

Definition go : record :=
  {[ "id" := JNum 12; "name" := JStr "Go"; "price" := JNum 700 ]}.

Definition alice : record :=
  {[ "id" := JStr "V1StGX"; "name" := JStr "Alice"; "age" := JNum 30 ]}.

(** A world whose two files hold the given collections. *)
Definition shop (products users : list record) : world :=
  {| disk := {[ dataPath := File true true (Encodes (collection_json products));
                usersPath := File true true (Encodes (collection_json users)) ]};
     journal := [] |}.

(** * Properties *)

(** ** Running computations *)

Lemma run_bind {A B : Type} (m : M A) (f : A → M B) (w w' : world) (a : A) :
  m w = (Ok a, w') → (m ≫= f) w = f a w'.
Proof. intros E. unfold mbind, M_bind. by rewrite E. Qed.

Lemma run_lift_bind {A B : Type} (r : result A) (f : A → M B) (w : world) :
  (lift r ≫= f) w =
    match r with
    | Ok a => f a w
    | Throw e => (Throw e, w)
    end.
Proof. by destruct r. Qed.

(** ** The store *)

Lemma read_and_parse_world path w : (read_and_parse path w).2 = w.
Proof.
  unfold read_and_parse, mbind, M_bind, readFileSync.
  destruct (disk w !! path) as [[|[] wr [|v]]|]; reflexivity.
Qed.

Lemma readData_cases path w :
  match (read_and_parse path w).1 with
  | Ok v => readData path w = (Ok v, w)
  | Throw e =>
      readData path w =
        (Ok (JArr []),
         {| disk := disk w; journal := journal w ++ [ConsoleError path e] |})
  end.
Proof.
  unfold readData, try_catch. fold (read_and_parse path).
  pose proof (read_and_parse_world path w) as Hw.
  destruct (read_and_parse path w) as [[v|e] w']; simpl in *; subst w'; reflexivity.
Qed.

Lemma writes_console w path e :
  writes {| disk := disk w; journal := journal w ++ [ConsoleError path e] |} = writes w.
Proof. unfold writes; simpl. rewrite filter_app. simpl. by rewrite app_nil_r. Qed.

Lemma readData_frame path w :
  disk (readData path w).2 = disk w ∧ writes (readData path w).2 = writes w.
Proof.
  pose proof (readData_cases path w) as H.
  destruct (read_and_parse path w).1; rewrite H; simpl; [done|].
  split; [done | apply writes_console].
Qed.

Lemma readData_stores w path c :
  stores w path c → readData path w = (Ok (collection_json c), w).
Proof.
  intros Hs. pose proof (readData_cases path w) as H.
  unfold read_and_parse, mbind, M_bind, readFileSync in H.
  unfold stores in Hs. by rewrite Hs in H.
Qed.

Lemma stores_loads w path c : stores w path c → loads w path c.
Proof. intros Hs. unfold loads. by rewrite (readData_stores w path c Hs). Qed.

Lemma loads_run w path c :
  loads w path c →
  readData path w = (Ok (collection_json c), (readData path w).2).
Proof. unfold loads. destruct (readData path w); simpl; congruence. Qed.

Lemma writeData_ok path v w : (writeData path v w).1 = Ok ().
Proof.
  unfold writeData, try_catch, writeFileSync.
  destruct (disk w !! path) as [[|r [] t]|]; reflexivity.
Qed.

Lemma writeData_stores w path c v :
  stores w path c → writeData path v w = (Ok (), saved w path v).
Proof.
  unfold stores, writeData, try_catch, writeFileSync. by intros ->.
Qed.

Lemma saved_stores w path c : stores (saved w path (collection_json c)) path c.
Proof. unfold stores, saved; simpl. apply lookup_insert_eq. Qed.

(** ** Searching a collection of records *)

Section Search.

Context (callback : json → result bool) (P : record → bool).
Hypothesis callback_record : ∀ r, callback (JObj r) = Ok (P r).

Lemma findIndex_from_records (c : list record) (i0 : nat) :
  findIndex_from callback (JObj <$> c) i0 =
    Ok ((λ p, (i0 + p.1)%nat) <$> list_find (λ r, P r = true) c).
Proof.
  revert i0. induction c as [|r c IH]; intros i0; [reflexivity|].
  cbn [fmap list_fmap findIndex_from list_find].
  change (list_fmap record json JObj c) with (JObj <$> c).
  rewrite callback_record. destruct (decide (P r = true)) as [E|E].
  - rewrite E. simpl. do 2 f_equal. lia.
  - apply not_true_is_false in E. rewrite E, IH.
    destruct (list_find _ c) as [[j x]|]; simpl; [|done].
    do 2 f_equal. lia.
Qed.

Lemma find_in_records (c : list record) :
  find_in callback (JObj <$> c) =
    Ok ((λ p, JObj p.2) <$> list_find (λ r, P r = true) c).
Proof.
  induction c as [|r c IH]; [reflexivity|].
  cbn [fmap list_fmap find_in list_find].
  change (list_fmap record json JObj c) with (JObj <$> c).
  rewrite callback_record. destruct (decide (P r = true)) as [E|E].
  - by rewrite E.
  - apply not_true_is_false in E. rewrite E, IH.
    by destruct (list_find _ c) as [[j x]|].
Qed.

End Search.

(** ** What each handler computes on a collection of records *)

Lemma GET_run R id w c :
  loads w (store_path R) c →
  GET R id w =
    (Ok match first_match R id c with
        | Some (_, r) => Response 200 (JObj r)
        | None => not_found R
        end,
     (readData (store_path R) w).2).
Proof.
  intros Hl%loads_run. unfold first_match.
  destruct R; simpl in *; unfold get_product, get_user;
    rewrite (run_bind _ _ _ _ _ Hl); unfold collection_json; simpl;
    [ rewrite (find_in_records _ (id_matches Products id)) by done
    | rewrite (find_in_records _ (id_matches Users id)) by done ];
    simpl; by destruct (list_find _ c) as [[j x]|].
Qed.

Lemma writeData_run path v w : writeData path v w = (Ok (), (writeData path v w).2).
Proof.
  pose proof (writeData_ok path v w). destruct (writeData path v w); simpl in *.
  congruence.
Qed.

Lemma first_match_lookup R id c i r :
  first_match R id c = Some (i, r) → c !! i = Some r ∧ id_matches R id r = true.
Proof. unfold first_match. rewrite list_find_Some. by intros (? & ? & _). Qed.

Lemma merged_records (c : list record) i r body :
  c !! i = Some r →
  merged (JObj <$> c) i body = Ok (JObj (updated_record r body)).
Proof.
  intros Hi. unfold merged. rewrite list_lookup_fmap, Hi. reflexivity.
Qed.

Lemma PUT_run R id body w c :
  loads w (store_path R) c →
  PUT R id body w =
    match first_match R id c with
    | Some (i, r) =>
        (Ok (Response 200 (JObj (updated_record r body))),
         (writeData (store_path R)
            (collection_json (<[ i := updated_record r body ]> c))
            (readData (store_path R) w).2).2)
    | None => (Ok (not_found R), (readData (store_path R) w).2)
    end.
Proof.
  intros Hl%loads_run.
  destruct (first_match R id c) as [[i r]|] eqn:Hf.
  - apply first_match_lookup in Hf as Hi. destruct Hi as [Hi _].
    unfold first_match in Hf.
    destruct R; unfold PUT, store_path in *; unfold put_product, put_user;
      rewrite (run_bind _ _ _ _ _ Hl); unfold collection_json; simpl;
      rewrite run_lift_bind, run_lift_bind;
      [ rewrite (findIndex_from_records _ (id_matches Products id)) by done
      | rewrite (findIndex_from_records _ (id_matches Users id)) by done ];
      rewrite Hf; simpl; rewrite run_lift_bind, (merged_records c i r body Hi);
      rewrite <- list_fmap_insert;
      unfold mbind, M_bind; rewrite writeData_run; reflexivity.
  - unfold first_match in Hf.
    destruct R; unfold PUT, store_path in *; unfold put_product, put_user;
      rewrite (run_bind _ _ _ _ _ Hl); unfold collection_json; simpl;
      rewrite run_lift_bind, run_lift_bind;
      [ rewrite (findIndex_from_records _ (id_matches Products id)) by done
      | rewrite (findIndex_from_records _ (id_matches Users id)) by done ];
      rewrite Hf; reflexivity.
Qed.

Lemma DELETE_run R id w c :
  loads w (store_path R) c →
  DELETE R id w =
    match first_match R id c with
    | Some (i, r) =>
        (Ok (confirmation R),
         (writeData (store_path R) (collection_json (delete i c))
            (readData (store_path R) w).2).2)
    | None => (Ok (not_found R), (readData (store_path R) w).2)
    end.
Proof.
  intros Hl%loads_run.
  destruct (first_match R id c) as [[i r]|] eqn:Hf; unfold first_match in Hf;
    destruct R; unfold DELETE, store_path in *; unfold delete_product, delete_user;
    rewrite (run_bind _ _ _ _ _ Hl); unfold collection_json; simpl;
    rewrite run_lift_bind, run_lift_bind;
    [ rewrite (findIndex_from_records _ (id_matches Products id)) by done
    | rewrite (findIndex_from_records _ (id_matches Users id)) by done
    | rewrite (findIndex_from_records _ (id_matches Products id)) by done
    | rewrite (findIndex_from_records _ (id_matches Users id)) by done ];
    rewrite Hf; simpl; try reflexivity;
    rewrite <- list_fmap_delete;
    unfold mbind, M_bind; rewrite writeData_run; reflexivity.
Qed.

(** ** The store degrades to the empty collection *)

(** C5. [readData] never throws: it returns the parsed content of a
    readable file that holds JSON, and the empty array when the file is
    missing, is a directory, is not readable or does not parse; the disk is
    left as it was. *)
Theorem readData_degrades_to_empty (path : string) (w : world) :
  (readData path w).1 =
    Ok match disk w !! path with
       | Some (File true _ (Encodes v)) => v
       | _ => JArr []
       end
  ∧ disk (readData path w).2 = disk w.
Proof.
  split; [|apply readData_frame].
  pose proof (readData_cases path w) as H.
  unfold read_and_parse, mbind, M_bind, readFileSync in H.
  destruct (disk w !! path) as [[|[] wr [|v]]|]; simpl in H; by rewrite H.
Qed.

(** ** Not found *)

Lemma first_match_None R id c :
  first_match R id c = None ↔ Forall (λ r, id_matches R id r = false) c.
Proof.
  unfold first_match. rewrite list_find_None. apply Forall_iff. intros r.
  by destruct (id_matches R id r).
Qed.

(** C8. When no record of the collection matches the id, an update and a
    delete answer not-found, leave the disk as it was and write nothing. *)
Theorem not_found_writes_nothing (R : resource) (id : string) (body : json)
    (w : world) (c : list record) :
  loads w (store_path R) c →
  Forall (λ r, id_matches R id r = false) c →
  ((PUT R id body w).1 = Ok (not_found R)
   ∧ disk (PUT R id body w).2 = disk w
   ∧ writes (PUT R id body w).2 = writes w)
  ∧ ((DELETE R id w).1 = Ok (not_found R)
     ∧ disk (DELETE R id w).2 = disk w
     ∧ writes (DELETE R id w).2 = writes w).
Proof.
  intros Hl Hno%first_match_None.
  rewrite (PUT_run R id body w c Hl), (DELETE_run R id w c Hl), Hno. simpl.
  pose proof (readData_frame (store_path R) w) as [? ?]. done.
Qed.

Lemma not_found_writes_nothing_witness :
  ((PUT Users "nobody" (JObj {[ "age" := JNum 31 ]}) (shop [chess] [alice])).1
     = Ok (not_found Users)
   ∧ disk (PUT Users "nobody" (JObj {[ "age" := JNum 31 ]}) (shop [chess] [alice])).2
     = disk (shop [chess] [alice])
   ∧ writes (PUT Users "nobody" (JObj {[ "age" := JNum 31 ]}) (shop [chess] [alice])).2
     = writes (shop [chess] [alice]))
  ∧ ((DELETE Users "nobody" (shop [chess] [alice])).1 = Ok (not_found Users)
     ∧ disk (DELETE Users "nobody" (shop [chess] [alice])).2
       = disk (shop [chess] [alice])
     ∧ writes (DELETE Users "nobody" (shop [chess] [alice])).2
       = writes (shop [chess] [alice])).
Proof.
  apply (not_found_writes_nothing Users "nobody" _ (shop [chess] [alice]) [alice]).
  - vm_compute. reflexivity.
  - repeat constructor.
Defined.

(** C4. A path parameter that [parseInt] turns into [NaN] matches no
    record of a products collection: get, update and delete answer
    not-found. *)
Theorem unparsable_id_not_found (id : string) (body : json) (w : world)
    (c : list record) :
  loads w dataPath c →
  parseInt id = NaN →
  (get_product id w).1 = Ok (not_found Products)
  ∧ (put_product id body w).1 = Ok (not_found Products)
  ∧ (delete_product id w).1 = Ok (not_found Products).
Proof.
  intros Hl Hnan.
  assert (first_match Products id c = None) as Hno.
  { apply first_match_None, Forall_forall. intros r _. simpl. rewrite Hnan.
    unfold strict_eq_number. by destruct (r !! "id") as [[]|]. }
  pose proof (GET_run Products id w c Hl) as Hg.
  pose proof (PUT_run Products id body w c Hl) as Hp.
  pose proof (DELETE_run Products id w c Hl) as Hd.
  rewrite Hno in Hg, Hp, Hd. simpl in Hg, Hp, Hd. by rewrite Hg, Hp, Hd.
Qed.

Lemma unparsable_id_not_found_witness :
  (get_product "abc" (shop [chess; go] [])).1 = Ok (not_found Products)
  ∧ (put_product "abc" (JObj {[ "price" := JNum 1 ]}) (shop [chess; go] [])).1
    = Ok (not_found Products)
  ∧ (delete_product "abc" (shop [chess; go] [])).1 = Ok (not_found Products).
Proof.
  apply (unparsable_id_not_found "abc" _ (shop [chess; go] []) [chess; go]).
  - vm_compute. reflexivity.
  - reflexivity.
Defined.

(** ** Delete *)

Lemma DELETE_stores R id w c :
  stores w (store_path R) c →
  DELETE R id w =
    match first_match R id c with
    | Some (i, r) =>
        (Ok (confirmation R), saved w (store_path R) (collection_json (delete i c)))
    | None => (Ok (not_found R), w)
    end.
Proof.
  intros Hs. rewrite (DELETE_run R id w c (stores_loads _ _ _ Hs)).
  rewrite (readData_stores _ _ _ Hs). simpl.
  destruct (first_match R id c) as [[i r]|]; [|done].
  by rewrite (writeData_stores _ _ _ _ Hs).
Qed.

(** C6. A delete that matches no record answers not-found and changes
    nothing, and does so again when repeated. A delete that matches
    removes the first matching record and no other; when no other record
    matched, repeating it answers not-found and changes nothing more. *)
Theorem delete_twice (R : resource) (id : string) (w : world) (c : list record) :
  stores w (store_path R) c →
  (first_match R id c = None →
     DELETE R id w = (Ok (not_found R), w)
     ∧ DELETE R id (DELETE R id w).2 = (Ok (not_found R), w))
  ∧ (∀ i r, first_match R id c = Some (i, r) →
       let w1 := (DELETE R id w).2 in
       (DELETE R id w).1 = Ok (confirmation R)
       ∧ stores w1 (store_path R) (take i c ++ drop (S i) c)
       ∧ S (length (take i c ++ drop (S i) c)) = length c
       ∧ (Forall (λ r', id_matches R id r' = false) (take i c ++ drop (S i) c) →
            DELETE R id w1 = (Ok (not_found R), w1))).
Proof.
  intros Hs. rewrite (DELETE_stores R id w c Hs). split.
  - intros Hno. rewrite Hno. simpl. by rewrite (DELETE_stores R id w c Hs), Hno.
  - intros i r Hf. rewrite Hf. simpl.
    apply first_match_lookup in Hf as [Hi _].
    rewrite <- delete_take_drop.
    pose proof (saved_stores w (store_path R) (delete i c)) as Hs1.
    split_and!; [done | done | |].
    + rewrite length_delete by eauto. apply lookup_lt_Some in Hi. lia.
    + intros Hno%first_match_None.
      by rewrite (DELETE_stores R id _ _ Hs1), Hno.
Qed.

Lemma delete_twice_witness :
  let w := shop [chess; go] [alice] in
  let w1 := (DELETE Products "12" w).2 in
  (DELETE Users "nobody" w = (Ok (not_found Users), w)
   ∧ DELETE Users "nobody" (DELETE Users "nobody" w).2 = (Ok (not_found Users), w))
  ∧ (DELETE Products "12" w).1 = Ok (confirmation Products)
  ∧ stores w1 dataPath [chess]
  ∧ DELETE Products "12" w1 = (Ok (not_found Products), w1).
Proof.
  intros w w1. split.
  - apply (delete_twice Users "nobody" w [alice]); vm_compute; reflexivity.
  - destruct (delete_twice Products "12" w [chess; go]) as [_ H];
      [vm_compute; reflexivity|].
    destruct (H 1%nat go) as (H1 & H2 & _ & H3); [vm_compute; reflexivity|].
    split_and!; [exact H1 | exact H2 | apply H3; repeat constructor].
Defined.

(** ** Update *)

Lemma PUT_stores R id body w c :
  stores w (store_path R) c →
  PUT R id body w =
    match first_match R id c with
    | Some (i, r) =>
        (Ok (Response 200 (JObj (updated_record r body))),
         saved w (store_path R)
           (collection_json (<[ i := updated_record r body ]> c)))
    | None => (Ok (not_found R), w)
    end.
Proof.
  intros Hs. rewrite (PUT_run R id body w c (stores_loads _ _ _ Hs)).
  rewrite (readData_stores _ _ _ Hs). simpl.
  destruct (first_match R id c) as [[i r]|]; [|done].
  by rewrite (writeData_stores _ _ _ _ Hs).
Qed.

Lemma matched_has_id R id r :
  id_matches R id r = true → is_Some (r !! "id").
Proof.
  destruct R; simpl; unfold strict_eq_number, strict_eq_string;
    destruct (r !! "id"); eauto; discriminate.
Qed.

Lemma updated_record_id r body : is_Some (r !! "id") →
  updated_record r body !! "id" = r !! "id".
Proof.
  intros [v Hv]. unfold updated_record. rewrite Hv. simpl.
  apply lookup_insert_eq.
Qed.

Lemma updated_record_other r body k : is_Some (r !! "id") → k ≠ "id" →
  updated_record r body !! k = (spread body !! k) ∪ (r !! k).
Proof.
  intros [v Hv] Hk. unfold updated_record. rewrite Hv. simpl.
  rewrite lookup_insert_ne by done. apply lookup_union.
Qed.

(** C3. An update of a product or a user that matches a record answers
    with, and stores in place of that record, the shallow merge of the
    body over it with the id of the record: the id is the one the record
    had, every other field present in the body has the value of the body,
    and every field absent from the body has the value it had. *)
Theorem update_merges (R : resource) (id : string) (body : json) (w : world)
    (c : list record) (i : nat) (r : record) :
  stores w (store_path R) c →
  first_match R id c = Some (i, r) →
  ∃ u : record,
    (PUT R id body w).1 = Ok (Response 200 (JObj u))
    ∧ stores (PUT R id body w).2 (store_path R) (<[ i := u ]> c)
    ∧ <[ i := u ]> c !! i = Some u
    ∧ u !! "id" = r !! "id"
    ∧ (∀ k v, k ≠ "id" → spread body !! k = Some v → u !! k = Some v)
    ∧ (∀ k, k ≠ "id" → spread body !! k = None → u !! k = r !! k).
Proof.
  intros Hs Hf. exists (updated_record r body).
  rewrite (PUT_stores R id body w c Hs), Hf. simpl.
  apply first_match_lookup in Hf as [Hi Hm%matched_has_id].
  split_and!.
  - done.
  - apply saved_stores.
  - apply list_lookup_insert_eq. by eapply lookup_lt_Some.
  - by apply updated_record_id.
  - intros k v Hk Hb. rewrite updated_record_other, Hb by done.
    by destruct (r !! k).
  - intros k Hk Hb. rewrite updated_record_other, Hb by done.
    by destruct (r !! k).
Qed.

Lemma update_merges_witness :
  ∃ u : record,
    (PUT Products "1" (JObj {[ "id" := JNum 999; "name" := JStr "X" ]})
         (shop [chess; go] [])).1 = Ok (Response 200 (JObj u))
    ∧ stores (PUT Products "1" (JObj {[ "id" := JNum 999; "name" := JStr "X" ]})
                  (shop [chess; go] [])).2 dataPath (<[ 0%nat := u ]> [chess; go])
    ∧ <[ 0%nat := u ]> [chess; go] !! 0%nat = Some u
    ∧ u !! "id" = chess !! "id"
    ∧ (∀ k v, k ≠ "id" →
         spread (JObj {[ "id" := JNum 999; "name" := JStr "X" ]}) !! k = Some v →
         u !! k = Some v)
    ∧ (∀ k, k ≠ "id" →
         spread (JObj {[ "id" := JNum 999; "name" := JStr "X" ]}) !! k = None →
         u !! k = chess !! k).
Proof.
  apply (update_merges Products "1" _ (shop [chess; go] []) [chess; go] 0 chess).
  - vm_compute. reflexivity.
  - vm_compute. reflexivity.
Defined.

(** ** Frame *)




(** ** Decimal numerals are read back by parseInt *)

Lemma digit_char_value d :
  0 ≤ d < 10 →
  digit_value 10 (digit_char d) = Some d ∧ is_digit (digit_char d) = true.
Proof.
  intros Hd.
  assert (d = 0 ∨ d = 1 ∨ d = 2 ∨ d = 3 ∨ d = 4 ∨ d = 5 ∨ d = 6 ∨ d = 7 ∨ d = 8 ∨ d = 9)
    as H by lia.
  repeat (destruct H as [->|H]; [by vm_compute|]). subst. by vm_compute.
Qed.

Lemma is_digit_value a : is_digit a = true → digit_value 10 a = Some (code a - 48).
Proof.
  unfold is_digit, digit_value. intros H. rewrite H.
  apply bool_decide_eq_true in H. rewrite bool_decide_eq_true_2 by lia. done.
Qed.

Lemma digits_snoc s a acc :
  all_digits s = true → is_digit a = true →
  digits 10 (s +:+ String a "") acc
  = Some (10 * default 0 (digits 10 s acc) + (code a - 48)).
Proof.
  revert acc. induction s as [|b s IH]; intros acc Hs Ha; simpl.
  - by rewrite (is_digit_value a Ha).
  - simpl in Hs. apply andb_true_iff in Hs as [Hb Hs].
    rewrite (is_digit_value b Hb). by apply IH.
Qed.

Lemma all_digits_snoc s a :
  all_digits s = true → is_digit a = true → all_digits (s +:+ String a "") = true.
Proof.
  induction s as [|b s IH]; simpl; intros Hs Ha.
  - by rewrite Ha.
  - apply andb_true_iff in Hs as [Hb Hs]. rewrite Hb. simpl. by apply IH.
Qed.

Lemma code_digit_char d : 0 ≤ d < 10 → code (digit_char d) - 48 = d.
Proof.
  intros Hd.
  assert (d = 0 ∨ d = 1 ∨ d = 2 ∨ d = 3 ∨ d = 4 ∨ d = 5 ∨ d = 6 ∨ d = 7 ∨ d = 8 ∨ d = 9)
    as H by lia.
  repeat (destruct H as [->|H]; [by vm_compute|]). subst. by vm_compute.
Qed.

Lemma decimal_digits_spec fuel n :
  0 ≤ n → (Z.to_nat n < fuel)%nat →
  all_digits (decimal_digits fuel n) = true
  ∧ decimal_digits fuel n ≠ ""
  ∧ digits 10 (decimal_digits fuel n) None = Some n.
Proof.
  revert n. induction fuel as [|fuel IH]; intros n Hn Hf; [lia|].
  assert (0 ≤ n mod 10 < 10) as Hd by (apply Z.mod_pos_bound; lia).
  destruct (digit_char_value _ Hd) as [_ Hdig].
  cbn [decimal_digits]. case_bool_decide as Hlt.
  - split_and!; [by simpl; rewrite Hdig | done |].
    rewrite (digits_snoc "" _ None eq_refl Hdig). simpl.
    rewrite code_digit_char by done. f_equal. rewrite Z.mod_small; lia.
  - destruct (IH (n / 10)) as (Hall & _ & Hval).
    { apply Z.div_pos; lia. }
    { assert (n / 10 < n) by (apply Z.div_lt; lia).
      assert (0 ≤ n / 10) by (apply Z.div_pos; lia). lia. }
    split_and!.
    + by apply all_digits_snoc.
    + by destruct (decimal_digits fuel (n / 10)).
    + rewrite (digits_snoc _ _ None Hall Hdig), Hval. simpl.
      rewrite code_digit_char by done. f_equal.
      pose proof (Z.div_mod n 10). lia.
Qed.

Lemma is_digit_cases a :
  is_digit a = true →
  a = "0"%char ∨ a = "1"%char ∨ a = "2"%char ∨ a = "3"%char ∨ a = "4"%char
  ∨ a = "5"%char ∨ a = "6"%char ∨ a = "7"%char ∨ a = "8"%char ∨ a = "9"%char.
Proof.
  destruct a as [[] [] [] [] [] [] [] []]; intros H; try (by vm_compute in H);
    tauto.
Qed.

Lemma trim_start_keeps a s :
  33 ≤ code a < 128 → trim_start (String a s) = String a s.
Proof.
  intros Ha.
  assert (white1 a = false) as H1.
  { unfold white1. rewrite !bool_decide_eq_false_2 by lia. done. }
  assert (∀ b, white2 a b = false) as H2.
  { intros b. unfold white2. rewrite bool_decide_eq_false_2 by lia. done. }
  assert (∀ b c, white3 a b c = false) as H3.
  { intros b c. unfold white3. rewrite !bool_decide_eq_false_2 by lia. done. }
  destruct s as [|b [|c s]]; cbn [trim_start]; rewrite ?H1, ?H2, ?H3; done.
Qed.

Lemma is_digit_code a : is_digit a = true → 48 ≤ code a ≤ 57.
Proof. unfold is_digit. by intros ?%bool_decide_eq_true. Qed.

Lemma radix_after_digit d t k :
  is_digit d = true → not_hex_marker t →
  (let '(radix, s0) :=
     match String d t with
     | String "0" (String "x" s') | String "0" (String "X" s') => (16, s')
     | _ => (10, String d t)
     end in
   match digits radix s0 None with
   | None => NaN
   | Some n => Num (k * n)
   end) = match digits 10 (String d t) None with
          | Some n => Num (k * n)
          | None => NaN
          end.
Proof.
  intros Hd Ht.
  destruct (is_digit_cases d Hd) as [->|[->|[->|[->|[->|[->|[->|[->|[->| ->]]]]]]]]];
    try reflexivity.
  destruct t as [|b t]; [reflexivity|]. destruct Ht as [Hx HX].
  destruct b as [[] [] [] [] [] [] [] []]; try reflexivity; congruence.
Qed.


Lemma digit_not_hex_marker s : all_digits s = true → not_hex_marker s.
Proof.
  destruct s as [|b s]; [done|]. simpl. intros [Hb _]%andb_true_iff.
  destruct (is_digit_cases b Hb) as [->|[->|[->|[->|[->|[->|[->|[->|[->| ->]]]]]]]]];
    done.
Qed.

Lemma parseInt_unsigned s :
  all_digits s = true → s ≠ "" →
  parseInt s = match digits 10 s None with Some n => Num n | None => NaN end
  ∧ parseInt (String "-" s)
    = match digits 10 s None with Some n => Num (- n) | None => NaN end.
Proof.
  intros Hs Hne. destruct s as [|a s]; [done|]. clear Hne.
  simpl in Hs. apply andb_true_iff in Hs as [Ha Hs].
  pose proof (digit_not_hex_marker s Hs) as Hm.
  unfold parseInt. rewrite !trim_start_keeps;
    [| change (code "-") with 45; lia | apply is_digit_code in Ha; lia].
  pose proof (λ k, radix_after_digit a s k Ha Hm) as Hprefix.
  split.
  - destruct (is_digit_cases a Ha) as [->|[->|[->|[->|[->|[->|[->|[->|[->| ->]]]]]]]]];
      (etrans; [apply (Hprefix 1)|]); destruct (digits 10 _ None) as [n|];
      try done; f_equal; lia.
  - etrans; [apply (Hprefix (-1))|].
    destruct (digits 10 _ None) as [n|]; [|done]. f_equal; lia.
Qed.


(** [parseInt] reads the decimal numeral of an integer back. *)
Lemma parseInt_decimal z : parseInt (decimal z) = Num z.
Proof.
  unfold decimal. case_bool_decide as Hz.
  - destruct (decimal_digits_spec (S (Z.to_nat (- z))) (- z)) as (Hall & Hne & Hval);
      [lia | lia |].
    destruct (parseInt_unsigned _ Hall Hne) as [_ ->]. rewrite Hval. f_equal. lia.
  - destruct (decimal_digits_spec (S (Z.to_nat z)) z) as (Hall & Hne & Hval);
      [lia | lia |].
    destruct (parseInt_unsigned _ Hall Hne) as [-> _]. by rewrite Hval.
Qed.

(** ** A path parameter with a numeric prefix *)

Lemma GET_stores R id w c :
  stores w (store_path R) c →
  GET R id w =
    (Ok match first_match R id c with
        | Some (_, r) => Response 200 (JObj r)
        | None => not_found R
        end, w).
Proof.
  intros Hs. rewrite (GET_run R id w c (stores_loads _ _ _ Hs)).
  by rewrite (readData_stores _ _ _ Hs).
Qed.





(** ** Create *)

Lemma maximum_bound z zs x : x ∈ z :: zs → x ≤ maximum z zs.
Proof.
  revert z. induction zs as [|z' zs IH]; intros z Hx.
  - apply list_elem_of_singleton in Hx. simpl. lia.
  - apply elem_of_cons in Hx as [->|Hx]; simpl; [lia|].
    specialize (IH z' Hx). lia.
Qed.

Lemma spec_next_id_above c r : r ∈ c → id_of r < spec_next_id c.
Proof.
  intros Hr. unfold spec_next_id.
  assert (id_of r ∈ id_of <$> c) as Hin by (by apply list_elem_of_fmap_2).
  destruct (id_of <$> c) as [|z zs]; [by apply elem_of_nil in Hin|].
  apply maximum_bound in Hin. lia.
Qed.

Lemma foldl_max_number a zs :
  foldl max_number (Num a) (Num <$> zs) = Num (foldl Z.max a zs).
Proof. revert a. induction zs as [|z zs IH]; intros a; [done|]. apply IH. Qed.

Lemma foldl_max_maximum a zs : foldl Z.max a zs = maximum a zs.
Proof.
  revert a. induction zs as [|z zs IH]; intros a; [done|].
  simpl. rewrite IH. destruct zs as [|y ys]; simpl; lia.
Qed.

Lemma Math_max_integers z zs :
  Math_max (Num <$> z :: zs) = Num (maximum z zs).
Proof.
  unfold Math_max. simpl. by rewrite foldl_max_number, foldl_max_maximum.
Qed.

Lemma mapM_dot_id_records (c : list record) :
  mapM dot_id (JObj <$> c) = Ok ((λ r, r !! "id") <$> c).
Proof.
  induction c as [|r c IH]; [done|].
  cbn [fmap list_fmap mapM]. cbn [fmap list_fmap mapM] in IH.
  cbn [dot_id mbind result_bind]. by rewrite IH.
Qed.

Lemma mapM_ToNumber_integers coerce (c : list record) :
  Forall has_integer_id c →
  mapM (ToNumber coerce) ((λ r, r !! "id") <$> c) = Ok (Num <$> (id_of <$> c)).
Proof.
  induction 1 as [|r c (z & Hz & _) _ IH]; [done|].
  cbn [fmap list_fmap mapM]. cbn [fmap list_fmap mapM] in IH.
  unfold id_of at 1. rewrite Hz. cbn [ToNumber mbind result_bind].
  by rewrite IH.
Qed.

(** On a collection of products with integer ids, the handler computes the
    id of the data model. *)
Lemma next_id_spec coerce (c : list record) :
  Forall has_integer_id c →
  next_id coerce (JObj <$> c) = Ok (Num (spec_next_id c)).
Proof.
  intros Hc. unfold next_id, spec_next_id.
  destruct c as [|r c]; [done|].
  change (JObj <$> r :: c) with (JObj r :: (JObj <$> c)).
  change (JObj r :: (JObj <$> c)) with (JObj <$> r :: c).
  rewrite mapM_dot_id_records. cbn [mbind result_bind].
  rewrite (mapM_ToNumber_integers coerce _ Hc). cbn [mbind result_bind].
  change (id_of <$> r :: c) with (id_of r :: (id_of <$> c)).
  by rewrite Math_max_integers.
Qed.

Lemma post_product_stores coerce body w c :
  stores w dataPath c →
  Forall has_integer_id c →
  post_product coerce body w =
    (Ok (Response 201 (JObj (created_record (spec_next_id c) body))),
     saved w dataPath
       (collection_json (c ++ [created_record (spec_next_id c) body]))).
Proof.
  intros Hs Hc. unfold post_product.
  rewrite (run_bind _ _ _ _ _ (readData_stores _ _ _ Hs)).
  unfold collection_json. cbn [as_array]. rewrite run_lift_bind, run_lift_bind.
  rewrite (next_id_spec coerce c Hc). cbn [json_of_number].
  unfold mbind, M_bind. rewrite (writeData_stores _ _ _ _ Hs).
  rewrite fmap_app. reflexivity.
Qed.

Lemma created_record_no_id n body :
  spread body !! "id" = None →
  created_record n body = <[ "id" := JNum n ]> (spread body).
Proof. intros H. unfold created_record. by rewrite insert_union_singleton_r. Qed.

(** C7. A create of a body without an id field into a collection of
    products, followed by a get of the returned id, returns the created
    record: the fields of the body and the assigned id. The get is made
    with the decimal numeral of the id, and succeeds as well with every
    other path parameter that [parseInt] reads as that id. *)
Theorem create_then_get (coerce : json → result number) (P : json) (w : world)
    (c : list record) :
  stores w dataPath c →
  Forall has_integer_id c →
  spread P !! "id" = None →
  let n := spec_next_id c in
  let created := <[ "id" := JNum n ]> (spread P) in
  let w1 := (post_product coerce P w).2 in
  (post_product coerce P w).1 = Ok (Response 201 (JObj created))
  ∧ (get_product (decimal n) w1).1 = Ok (Response 200 (JObj created))
  ∧ (∀ s, parseInt s = Num n →
       (get_product s w1).1 = Ok (Response 200 (JObj created)))
  ∧ (∀ k, k ≠ "id" → created !! k = spread P !! k).
Proof.
  intros Hs Hc HP n created w1.
  assert (∀ s, parseInt s = Num n →
            (get_product s w1).1 = Ok (Response 200 (JObj created))) as Hget.
  { intros s Hparse. unfold w1.
    rewrite (post_product_stores coerce P w c Hs Hc).
    rewrite (created_record_no_id _ _ HP). fold n created. simpl.
    pose proof (saved_stores w dataPath (c ++ [created])) as Hs1.
    pose proof (GET_stores Products s _ _ Hs1) as Hg. simpl in Hg. rewrite Hg.
    assert (first_match Products s (c ++ [created]) = Some (length c, created)) as ->;
      [|done].
    unfold first_match. rewrite list_find_app_r.
    - cbn [list_find]. rewrite decide_True; [simpl; do 2 f_equal; lia|].
      simpl. rewrite Hparse. unfold created. rewrite lookup_insert_eq. simpl.
      by apply bool_decide_eq_true.
    - apply list_find_None, Forall_forall. intros r Hr.
      pose proof (spec_next_id_above c r Hr) as Hlt.
      rewrite Forall_forall in Hc. destruct (Hc r Hr) as (z & Hz & _).
      simpl. rewrite Hparse, Hz. simpl. unfold id_of in Hlt. rewrite Hz in Hlt.
      intros Heq%bool_decide_eq_true. fold n in Hlt. lia. }
  split_and!.
  - rewrite (post_product_stores coerce P w c Hs Hc).
    by rewrite (created_record_no_id _ _ HP).
  - apply Hget, parseInt_decimal.
  - exact Hget.
  - by intros k Hk; apply lookup_insert_ne.
Qed.

Lemma create_then_get_witness :
  let P := JObj {[ "name" := JStr "Catan"; "price" := JNum 900 ]} in
  let w := shop [chess; go] [] in
  let created := <[ "id" := JNum 13 ]> (spread P) in
  let w1 := (post_product (λ _, Ok NaN) P w).2 in
  (post_product (λ _, Ok NaN) P w).1 = Ok (Response 201 (JObj created))
  ∧ (get_product "13" w1).1 = Ok (Response 200 (JObj created))
  ∧ (∀ s, parseInt s = Num 13 →
       (get_product s w1).1 = Ok (Response 200 (JObj created)))
  ∧ (∀ k, k ≠ "id" → created !! k = spread P !! k).
Proof.
  apply (create_then_get (λ _, Ok NaN)
           (JObj {[ "name" := JStr "Catan"; "price" := JNum 900 ]})
           (shop [chess; go] []) [chess; go]).
  - vm_compute. reflexivity.
  - repeat constructor; [exists 1 | exists 12]; (split; [reflexivity | reflexivity]).
  - reflexivity.
Defined.

(** ** An id in the body of a create *)

(** C1. Evaluation of a create whose body carries an id. The collection
    holds one product, of id 1; the body is [{ id: 1, name: "Go" }]. The
    computed next id is 2, but the spread of the body comes after [id] in
    the object literal: the created record is the body as it was sent, with
    id 1, and the stored collection then holds two records of id 1. *)
Theorem create_takes_id_from_body (coerce : json → result number) :
  let body : record := {[ "id" := JNum 1; "name" := JStr "Go" ]} in
  let w := shop [chess] [] in
  next_id coerce (JObj <$> [chess]) = Ok (Num 2)
  ∧ (post_product coerce (JObj body) w).1 = Ok (Response 201 (JObj body))
  ∧ stores (post_product coerce (JObj body) w).2 dataPath [chess; body]
  ∧ chess !! "id" = Some (JNum 1)
  ∧ body !! "id" = Some (JNum 1).
Proof. intros body w. split_and!; vm_compute; reflexivity. Qed.

(** C2. Evaluation of two creates whose body carries an id. Into the
    empty collection, the body [{ id: 7 }] creates a record of id 7, not 1.
    Into a collection whose largest id is 12, the body [{ id: 5 }] creates
    a record of id 5, not 13. *)
Theorem create_id_is_not_next_id (coerce : json → result number) :
  ((post_product coerce (JObj {[ "id" := JNum 7 ]}) (shop [] [])).1
     = Ok (Response 201 (JObj {[ "id" := JNum 7 ]}))
   ∧ spec_next_id [] = 1)
  ∧ ((post_product coerce (JObj {[ "id" := JNum 5 ]}) (shop [chess; go] [])).1
       = Ok (Response 201 (JObj {[ "id" := JNum 5 ]}))
     ∧ spec_next_id [chess; go] = 13).
Proof. split_and!; vm_compute; reflexivity. Qed.

(** Without an id in the body, the created record has the id of the data
    model: 1 in the empty collection, the largest id plus one otherwise,
    and that id is not the id of any record of the collection. *)
Lemma create_assigns_next_id coerce body w c :
  stores w dataPath c →
  Forall has_integer_id c →
  spread body !! "id" = None →
  ∃ created : record,
    (post_product coerce body w).1 = Ok (Response 201 (JObj created))
    ∧ stores (post_product coerce body w).2 dataPath (c ++ [created])
    ∧ created !! "id" = Some (JNum (spec_next_id c))
    ∧ (c = [] → spec_next_id c = 1)
    ∧ (∀ r, r ∈ c → id_of r < spec_next_id c).
Proof.
  intros Hs Hc Hb. exists (created_record (spec_next_id c) body).
  rewrite (post_product_stores coerce body w c Hs Hc). simpl.
  split_and!.
  - done.
  - apply saved_stores.
  - rewrite (created_record_no_id _ _ Hb). apply lookup_insert_eq.
  - by intros ->.
  - apply spec_next_id_above.
Qed.

(** * Further properties of the server *)

(** ** Effects of a request on the world *)

Lemma LIST_world R w : (LIST R w).2 = (readData (store_path R) w).2.
Proof.
  destruct R; unfold LIST, get_products, get_users, store_path, mbind, M_bind;
    by destruct (readData _ w) as [[v|e] w1].
Qed.

Lemma GET_world R id w : (GET R id w).2 = (readData (store_path R) w).2.
Proof.
  destruct R; unfold GET, get_product, get_user, store_path;
    unfold mbind at 1, M_bind at 1;
    destruct (readData _ w) as [[v|e] w1]; [|done| |done];
    rewrite run_lift_bind; simpl;
    (match goal with |- context [match ?r with Ok _ => _ | Throw _ => _ end] =>
       destruct r as [[p|]|]; [destruct (truthy p)| |]; done end).
Qed.

Lemma run_bind_cases {A B : Type} (m : M A) (f : A → M B) (w : world) :
  (m ≫= f) w =
    match m w with
    | (Ok a, w') => f a w'
    | (Throw e, w') => (Throw e, w')
    end.
Proof. reflexivity. Qed.

Lemma write_then_return {A : Type} path v (a : A) w :
  (writeData path v ≫= λ _, mret a) w = (Ok a, (writeData path v w).2).
Proof. unfold mbind, M_bind. by rewrite writeData_run. Qed.

Lemma PUT_world R id body w :
  read_then_maybe_written (store_path R) w (PUT R id body w).2.
Proof.
  unfold read_then_maybe_written.
  destruct R; unfold PUT, put_product, put_user, store_path;
    rewrite run_bind_cases;
    destruct (readData _ w) as [[v|e] w1]; simpl; try (by left);
    rewrite run_lift_bind; destruct (as_array v) as [l|e]; try (by left);
    rewrite run_lift_bind; destruct (findIndex_from _ l 0) as [[i|]|e];
    try (by left);
    rewrite run_lift_bind; destruct (merged l i body) as [u|e]; try (by left);
    right; eexists; cbv beta iota; by rewrite write_then_return.
Qed.

Lemma DELETE_world R id w :
  read_then_maybe_written (store_path R) w (DELETE R id w).2.
Proof.
  unfold read_then_maybe_written.
  destruct R; unfold DELETE, delete_product, delete_user, store_path;
    rewrite run_bind_cases;
    destruct (readData _ w) as [[v|e] w1]; simpl; try (by left);
    rewrite run_lift_bind; destruct (as_array v) as [l|e]; try (by left);
    rewrite run_lift_bind; destruct (findIndex_from _ l 0) as [[i|]|e];
    try (by left);
    right; eexists; cbv beta iota; by rewrite write_then_return.
Qed.

Lemma post_product_world coerce body w :
  read_then_maybe_written dataPath w (post_product coerce body w).2.
Proof.
  unfold read_then_maybe_written, post_product.
  rewrite run_bind_cases.
  destruct (readData _ w) as [[v|e] w1]; simpl; try (by left).
  rewrite run_lift_bind; destruct (as_array v) as [l|e]; try (by left).
  rewrite run_lift_bind; destruct (next_id coerce l) as [n|e]; try (by left).
  right; eexists; cbv beta iota; by rewrite write_then_return.
Qed.

Lemma post_user_world token body w :
  read_then_maybe_written usersPath w (post_user token body w).2.
Proof.
  unfold read_then_maybe_written, post_user.
  rewrite run_bind_cases.
  destruct (readData _ w) as [[v|e] w1]; simpl; try (by left).
  rewrite run_lift_bind; destruct (as_array v) as [l|e]; try (by left).
  right; eexists; cbv beta iota; by rewrite write_then_return.
Qed.

Lemma writeData_cases path v w :
  (writeData path v w).2 = saved_as w path v
  ∨ ∃ e, (writeData path v w).2
         = {| disk := disk w; journal := journal w ++ [ConsoleError path e] |}.
Proof.
  unfold writeData, try_catch, writeFileSync, saved_as.
  destruct (disk w !! path) as [[|r [] t]|]; simpl; eauto.
Qed.

(** X1. The list and get handlers never change the disk and never write,
    whatever the file holds. *)
Theorem reads_change_nothing (R : resource) (id : string) (w : world) :
  (disk (LIST R w).2 = disk w ∧ writes (LIST R w).2 = writes w)
  ∧ (disk (GET R id w).2 = disk w ∧ writes (GET R id w).2 = writes w).
Proof.
  rewrite LIST_world, GET_world. pose proof (readData_frame (store_path R) w).
  tauto.
Qed.

Lemma writes_saved_as w path v :
  writes (saved_as w path v) = writes w ++ [Written path (Encodes v)].
Proof. unfold writes, saved_as. simpl. by rewrite filter_app. Qed.

Lemma read_then_maybe_written_changes_only path w w' :
  read_then_maybe_written path w w' → changes_only path w w'.
Proof.
  pose proof (readData_frame path w) as [Hd Hw].
  intros [->|[v ->]]; split.
  - intros p _. by rewrite Hd.
  - by left.
  - intros p Hp.
    destruct (writeData_cases path v (readData path w).2) as [->|[e ->]]; simpl.
    + by rewrite lookup_insert_ne, Hd.
    + by rewrite Hd.
  - destruct (writeData_cases path v (readData path w).2) as [->|[e ->]].
    + right. exists v. by rewrite writes_saved_as, Hw.
    + left. by rewrite writes_console.
Qed.

(** X2. An update, a delete and a create change no file but the one of
    their resource, and make at most one write, to that file, whatever the
    disk holds and whatever the outcome of the request. *)
Theorem requests_change_only_their_file (R : resource) (id : string)
    (body : json) (coerce : json → result number) (token : string) (w : world) :
  changes_only (store_path R) w (PUT R id body w).2
  ∧ changes_only (store_path R) w (DELETE R id w).2
  ∧ changes_only (store_path R) w (CREATE R coerce token body w).2.
Proof.
  split_and!; apply read_then_maybe_written_changes_only.
  - apply PUT_world.
  - apply DELETE_world.
  - destruct R; [apply post_product_world | apply post_user_world].
Qed.

(** ** A file that does not hold an array *)

Lemma readData_readable path w wr v :
  disk w !! path = Some (File true wr (Encodes v)) →
  readData path w = (Ok v, w).
Proof.
  intros Hd. pose proof (readData_cases path w) as H.
  unfold read_and_parse, mbind, M_bind, readFileSync in H. by rewrite Hd in H.
Qed.

Lemma as_array_other v : (∀ l, v ≠ JArr l) → as_array v = Throw TypeError.
Proof. intros Hv. destruct v; try done. by destruct (Hv l). Qed.

(** X3. When the file of a resource holds JSON that is not an array (an
    object, a number, a string, [null]), the list handler answers 200 with
    that value, while get, update, delete and create throw a TypeError,
    and none of them changes the world. *)
Theorem not_an_array_throws (R : resource) (id : string) (body : json)
    (coerce : json → result number) (token : string) (w : world)
    (wr : bool) (v : json) :
  disk w !! store_path R = Some (File true wr (Encodes v)) →
  (∀ l, v ≠ JArr l) →
  LIST R w = (Ok (Response 200 v), w)
  ∧ GET R id w = (Throw TypeError, w)
  ∧ PUT R id body w = (Throw TypeError, w)
  ∧ DELETE R id w = (Throw TypeError, w)
  ∧ CREATE R coerce token body w = (Throw TypeError, w).
Proof.
  intros Hd Hv. pose proof (readData_readable _ _ _ _ Hd) as Hr.
  pose proof (as_array_other v Hv) as Ha.
  destruct R; unfold LIST, GET, PUT, DELETE, CREATE, store_path in *;
    unfold get_products, get_product, put_product, delete_product, post_product,
      get_users, get_user, put_user, delete_user, post_user;
    rewrite !(run_bind _ _ _ _ _ Hr), !run_lift_bind, ?Ha;
    split_and!; try reflexivity;
    by (cbn [mbind result_bind]; rewrite Ha).
Qed.

Lemma not_an_array_throws_witness :
  let w := {| disk := {[ dataPath := File true true (Encodes (JObj chess)) ]};
              journal := [] |} in
  LIST Products w = (Ok (Response 200 (JObj chess)), w)
  ∧ GET Products "1" w = (Throw TypeError, w)
  ∧ PUT Products "1" (JObj ∅) w = (Throw TypeError, w)
  ∧ DELETE Products "1" w = (Throw TypeError, w)
  ∧ CREATE Products (λ _, Ok NaN) "" (JObj ∅) w = (Throw TypeError, w).
Proof.
  intros w.
  apply (not_an_array_throws Products "1" (JObj ∅) (λ _, Ok NaN) "" w true (JObj chess)).
  - reflexivity.
  - intros l H. discriminate H.
Defined.

(** ** A write that fails *)

Lemma read_only_loads w path c : read_only w path c → loads w path c.
Proof.
  intros H. unfold loads. by rewrite (readData_readable _ _ _ _ H).
Qed.

Lemma writeData_read_only w path c v :
  read_only w path c →
  writeData path v w =
    (Ok (), {| disk := disk w; journal := journal w ++ [ConsoleError path EACCES] |}).
Proof. unfold read_only, writeData, try_catch, writeFileSync. by intros ->. Qed.

(** X4. On a file that can be read but not written, an update and a
    delete of a record that matches answer as if they had succeeded (200
    with the updated record, 200 with the confirmation), but the disk is
    as it was, no write is made, the failure is only reported on the
    console, and a get still answers with the old record. *)
Theorem failed_write_is_silent (R : resource) (id : string) (body : json)
    (w : world) (c : list record) (i : nat) (r : record) :
  read_only w (store_path R) c →
  first_match R id c = Some (i, r) →
  let logged :=
    {| disk := disk w;
       journal := journal w ++ [ConsoleError (store_path R) EACCES] |} in
  PUT R id body w = (Ok (Response 200 (JObj (updated_record r body))), logged)
  ∧ DELETE R id w = (Ok (confirmation R), logged)
  ∧ writes logged = writes w
  ∧ (GET R id logged).1 = Ok (Response 200 (JObj r)).
Proof.
  intros Hro Hf logged. pose proof (read_only_loads _ _ _ Hro) as Hl.
  pose proof (readData_readable _ _ _ _ Hro) as Hr.
  rewrite (PUT_run R id body w c Hl), (DELETE_run R id w c Hl), Hf, Hr. simpl.
  rewrite !(writeData_read_only w _ c _ Hro). fold logged.
  split_and!; [done | done | apply writes_console |].
  assert (loads logged (store_path R) c) as Hl'.
  { apply read_only_loads. exact Hro. }
  by rewrite (GET_run R id logged c Hl'), Hf.
Qed.

Lemma failed_write_is_silent_witness :
  let w := {| disk := {[ usersPath := File true false (Encodes (collection_json [alice])) ]};
              journal := [] |} in
  let logged :=
    {| disk := disk w; journal := journal w ++ [ConsoleError usersPath EACCES] |} in
  PUT Users "V1StGX" (JObj {[ "age" := JNum 31 ]}) w
    = (Ok (Response 200 (JObj (updated_record alice (JObj {[ "age" := JNum 31 ]})))),
       logged)
  ∧ DELETE Users "V1StGX" w = (Ok (confirmation Users), logged)
  ∧ writes logged = writes w
  ∧ (GET Users "V1StGX" logged).1 = Ok (Response 200 (JObj alice)).
Proof.
  intros w.
  apply (failed_write_is_silent Users "V1StGX" _ w [alice] 0 alice).
  - reflexivity.
  - vm_compute. reflexivity.
Defined.

(** ** Which record a request finds *)

Lemma id_matches_Products id r :
  id_matches Products id r = true ↔
  ∃ z : Z, r !! "id" = Some (JNum z) ∧ parseInt id = Num z.
Proof.
  simpl. unfold strict_eq_number. split.
  - destruct (r !! "id") as [[| |z| | |]|]; try discriminate.
    destruct (parseInt id) as [| |z']; try discriminate.
    intros ->%bool_decide_eq_true. eauto.
  - intros (z & -> & ->). by apply bool_decide_eq_true.
Qed.

Lemma id_matches_Users id r :
  id_matches Users id r = true ↔ r !! "id" = Some (JStr id).
Proof.
  simpl. unfold strict_eq_string. split.
  - destruct (r !! "id") as [[| | |s| |]|]; try discriminate.
    by intros ->%bool_decide_eq_true.
  - intros ->. by apply bool_decide_eq_true.
Qed.

Lemma id_matches_kind R id r : id_matches R id r = true → id_of_kind R r.
Proof.
  destruct R.
  - intros (z & Hz & _)%id_matches_Products. by exists z.
  - intros H%id_matches_Users. by exists id.
Qed.

Lemma not_found_is_not_200 R r : not_found R ≠ Response 200 (JObj r).
Proof. by destruct R. Qed.

(** X5. On a collection of records, a get answers 200 with a record
    exactly when that record is the first of the collection, in file
    order, whose id matches the path parameter, and answers not-found
    exactly when no record matches. *)
Theorem get_answers_first_match (R : resource) (id : string) (w : world)
    (c : list record) (r : record) :
  loads w (store_path R) c →
  ((GET R id w).1 = Ok (Response 200 (JObj r)) ↔
     ∃ i, c !! i = Some r ∧ id_matches R id r = true
          ∧ ∀ j r', c !! j = Some r' → (j < i)%nat → id_matches R id r' = false)
  ∧ ((GET R id w).1 = Ok (not_found R) ↔
       Forall (λ r', id_matches R id r' = false) c).
Proof.
  intros Hl. rewrite (GET_run R id w c Hl). simpl.
  rewrite <- first_match_None. split.
  - split.
    + destruct (first_match R id c) as [[i r0]|] eqn:Hf.
      * intros [= <-]. exists i. unfold first_match in Hf.
        apply list_find_Some in Hf as (Hi & Hm & Hbefore). split_and!; [done..|].
        intros j r' Hj Hlt. specialize (Hbefore j r' Hj Hlt).
        by destruct (id_matches R id r').
      * intros [= H]. by apply not_found_is_not_200 in H.
    + intros (i & Hi & Hm & Hbefore).
      assert (first_match R id c = Some (i, r)) as ->; [|done].
      apply list_find_Some. split_and!; [done..|].
      intros j r' Hj Hlt. rewrite (Hbefore j r' Hj Hlt). discriminate.
  - destruct (first_match R id c) as [[i r0]|]; split; try done.
    intros [= H]. symmetry in H. by apply not_found_is_not_200 in H.
Qed.

Lemma get_answers_first_match_witness :
  (GET Users "V1StGX" (shop [chess] [alice; alice])).1
  = Ok (Response 200 (JObj alice)).
Proof.
  apply (get_answers_first_match Users "V1StGX" (shop [chess] [alice; alice])
           [alice; alice] alice).
  - vm_compute. reflexivity.
  - exists 0%nat. split_and!; [reflexivity | reflexivity |].
    intros j r' _ Hlt. lia.
Defined.

(** X6. The comparison with the path parameter converts nothing: when no
    record of the collection has an id of the type the resource compares
    with (a number for products, a string for users), every get, update
    and delete answers not-found, whatever the path parameter. *)
Theorem ids_of_another_type_are_unreachable (R : resource) (id : string)
    (body : json) (w : world) (c : list record) :
  loads w (store_path R) c →
  Forall (λ r, ¬ id_of_kind R r) c →
  (GET R id w).1 = Ok (not_found R)
  ∧ (PUT R id body w).1 = Ok (not_found R)
  ∧ (DELETE R id w).1 = Ok (not_found R).
Proof.
  intros Hl Hc.
  assert (first_match R id c = None) as Hno.
  { apply first_match_None. eapply Forall_impl; [exact Hc|]. intros r Hr. simpl in Hr.
    destruct (id_matches R id r) eqn:E; [|done].
    by apply id_matches_kind in E. }
  rewrite (GET_run R id w c Hl), (PUT_run R id body w c Hl),
    (DELETE_run R id w c Hl), Hno. done.
Qed.

Lemma ids_of_another_type_are_unreachable_witness :
  let c : list record := [ {[ "id" := JStr "1"; "name" := JStr "Chess" ]} ] in
  (GET Products "1" (shop c [])).1 = Ok (not_found Products)
  ∧ (PUT Products "1" (JObj ∅) (shop c [])).1 = Ok (not_found Products)
  ∧ (DELETE Products "1" (shop c [])).1 = Ok (not_found Products).
Proof.
  intros c.
  apply (ids_of_another_type_are_unreachable Products "1" (JObj ∅) (shop c []) c).
  - vm_compute. reflexivity.
  - repeat constructor. intros [z Hz]. vm_compute in Hz. discriminate Hz.
Defined.

(** ** Updates, repeated and composed *)

Lemma id_matches_same_id R id r r' :
  r !! "id" = r' !! "id" → id_matches R id r = id_matches R id r'.
Proof. destruct R; simpl; by intros ->. Qed.

Lemma updated_record_same_id R id r body :
  id_matches R id r = true →
  updated_record r body !! "id" = r !! "id".
Proof. intros H%matched_has_id. by apply updated_record_id. Qed.

Lemma first_match_insert R id c i r u :
  first_match R id c = Some (i, r) →
  u !! "id" = r !! "id" →
  first_match R id (<[ i := u ]> c) = Some (i, u).
Proof.
  unfold first_match. rewrite !list_find_Some. intros (Hi & Hm & Hbefore) Hu.
  split_and!.
  - apply list_lookup_insert_eq. by eapply lookup_lt_Some.
  - by rewrite (id_matches_same_id R id u r Hu).
  - intros j y Hj Hlt. rewrite list_lookup_insert_ne in Hj by lia. eauto.
Qed.

Lemma updated_record_twice r body :
  is_Some (r !! "id") →
  updated_record (updated_record r body) body = updated_record r body.
Proof.
  intros Hid. apply map_eq. intros k. destruct (decide (k = "id")) as [->|Hk].
  - rewrite !updated_record_id; [done..|]. by rewrite updated_record_id.
  - rewrite (updated_record_other (updated_record r body)), updated_record_other;
      [|done..|by rewrite updated_record_id|done].
    by destruct (spread body !! k), (r !! k).
Qed.

(** X7. An update is idempotent: repeating it answers with the same
    record and stores the same collection as the first time. *)
Theorem update_is_idempotent (R : resource) (id : string) (body : json)
    (w : world) (c : list record) (i : nat) (r : record) :
  stores w (store_path R) c →
  first_match R id c = Some (i, r) →
  let w1 := (PUT R id body w).2 in
  let c1 := <[ i := updated_record r body ]> c in
  stores w1 (store_path R) c1
  ∧ (PUT R id body w1).1 = (PUT R id body w).1
  ∧ stores (PUT R id body w1).2 (store_path R) c1.
Proof.
  intros Hs Hf w1 c1.
  assert (PUT R id body w =
            (Ok (Response 200 (JObj (updated_record r body))),
             saved w (store_path R) (collection_json c1))) as H1.
  { by rewrite (PUT_stores R id body w c Hs), Hf. }
  unfold w1. rewrite H1. cbn [fst snd].
  pose proof (saved_stores w (store_path R) c1) as Hs1.
  apply first_match_lookup in Hf as Hm. destruct Hm as [_ Hm].
  pose proof (first_match_insert R id c i r (updated_record r body) Hf
                (updated_record_same_id R id r body Hm)) as Hf1.
  fold c1 in Hf1. rewrite (PUT_stores R id body _ c1 Hs1), Hf1. cbn [fst snd].
  rewrite (updated_record_twice r body (matched_has_id R id r Hm)).
  split_and!; [done | done |].
  unfold c1. rewrite list_insert_insert_eq. apply saved_stores.
Qed.

Lemma update_is_idempotent_witness :
  let body := JObj {[ "price" := JNum 650 ]} in
  let w := shop [chess; go] [] in
  let w1 := (PUT Products "12" body w).2 in
  let c1 := <[ 1%nat := updated_record go body ]> [chess; go] in
  stores w1 dataPath c1
  ∧ (PUT Products "12" body w1).1 = (PUT Products "12" body w).1
  ∧ stores (PUT Products "12" body w1).2 dataPath c1.
Proof.
  apply (update_is_idempotent Products "12" _ (shop [chess; go] []) [chess; go] 1 go).
  - vm_compute. reflexivity.
  - vm_compute. reflexivity.
Defined.

Lemma list_find_insert_other {A : Type} (P : A → Prop) `{∀ x, Decision (P x)}
    (l : list A) (i : nat) (x u : A) :
  l !! i = Some x → ¬ P x → ¬ P u →
  list_find P (<[ i := u ]> l) = list_find P l.
Proof.
  revert i. induction l as [|y l IH]; intros i Hi Hx Hu; [done|].
  destruct i as [|i]; simpl in *.
  - injection Hi as ->. by rewrite !decide_False.
  - destruct (decide (P y)); [done|]. by rewrite (IH i).
Qed.

Lemma list_find_delete_other {A : Type} (P : A → Prop) `{∀ x, Decision (P x)}
    (l : list A) (i : nat) (x : A) :
  l !! i = Some x → ¬ P x →
  snd <$> list_find P (delete i l) = snd <$> list_find P l.
Proof.
  revert i. induction l as [|y l IH]; intros i Hi Hx; [done|].
  destruct i as [|i]; simpl in *.
  - injection Hi as ->. rewrite decide_False by done.
    by destruct (list_find P l) as [[??]|].
  - destruct (decide (P y)); [done|]. specialize (IH i Hi Hx).
    destruct (list_find P (delete i l)) as [[??]|], (list_find P l) as [[??]|];
      simpl in *; congruence.
Qed.

Lemma GET_found R id w c :
  stores w (store_path R) c →
  (GET R id w).1 =
    Ok match found R id c with
       | Some r => Response 200 (JObj r)
       | None => not_found R
       end.
Proof.
  intros Hs. rewrite (GET_stores R id w c Hs). unfold found. simpl.
  by destruct (first_match R id c) as [[??]|].
Qed.

(** X8. After an update, a get of the same id answers with the updated
    record, and a get of any id that the updated record does not match
    answers as it did before the update. *)
Theorem update_then_get (R : resource) (id : string) (body : json)
    (w : world) (c : list record) (i : nat) (r : record) :
  stores w (store_path R) c →
  first_match R id c = Some (i, r) →
  let w1 := (PUT R id body w).2 in
  (GET R id w1).1 = Ok (Response 200 (JObj (updated_record r body)))
  ∧ (∀ id', id_matches R id' r = false → (GET R id' w1).1 = (GET R id' w).1).
Proof.
  intros Hs Hf w1.
  apply first_match_lookup in Hf as Hm. destruct Hm as [Hi Hm].
  pose proof (updated_record_same_id R id r body Hm) as Hid.
  assert (stores w1 (store_path R) (<[ i := updated_record r body ]> c)) as Hs1.
  { unfold w1. rewrite (PUT_stores R id body w c Hs), Hf. apply saved_stores. }
  split.
  - rewrite (GET_stores R id w1 _ Hs1).
    by rewrite (first_match_insert R id c i r _ Hf Hid).
  - intros id' Hno.
    rewrite (GET_stores R id' w1 _ Hs1), (GET_stores R id' w c Hs). simpl.
    unfold first_match.
    rewrite (list_find_insert_other _ c i r (updated_record r body) Hi); [done|..].
    + by rewrite Hno.
    + by rewrite (id_matches_same_id R id' _ r Hid), Hno.
Qed.

Lemma update_then_get_witness :
  let body := JObj {[ "price" := JNum 650 ]} in
  let w := shop [chess; go] [] in
  let w1 := (PUT Products "12" body w).2 in
  (GET Products "12" w1).1 = Ok (Response 200 (JObj (updated_record go body)))
  ∧ (∀ id', id_matches Products id' go = false →
       (GET Products id' w1).1 = (GET Products id' w).1).
Proof.
  apply (update_then_get Products "12" _ (shop [chess; go] []) [chess; go] 1 go).
  - vm_compute. reflexivity.
  - vm_compute. reflexivity.
Defined.

(** X9. After a delete, a get of any id that the removed record does not
    match answers as it did before; a get of the deleted id answers
    not-found when no other record matched it. *)
Theorem delete_then_get (R : resource) (id : string) (w : world)
    (c : list record) (i : nat) (r : record) :
  stores w (store_path R) c →
  first_match R id c = Some (i, r) →
  let w1 := (DELETE R id w).2 in
  (∀ id', id_matches R id' r = false → (GET R id' w1).1 = (GET R id' w).1)
  ∧ (Forall (λ r', id_matches R id r' = false) (delete i c) →
       (GET R id w1).1 = Ok (not_found R)).
Proof.
  intros Hs Hf w1.
  apply first_match_lookup in Hf as Hm. destruct Hm as [Hi Hm].
  assert (stores w1 (store_path R) (delete i c)) as Hs1.
  { unfold w1. rewrite (DELETE_stores R id w c Hs), Hf. apply saved_stores. }
  split.
  - intros id' Hno. rewrite (GET_found R id' w1 _ Hs1), (GET_found R id' w c Hs).
    unfold found, first_match.
    rewrite (list_find_delete_other _ c i r Hi); [done|]. by rewrite Hno.
  - intros Hnone%first_match_None.
    by rewrite (GET_stores R id w1 _ Hs1), Hnone.
Qed.

Lemma delete_then_get_witness :
  let w := shop [chess; go] [] in
  let w1 := (DELETE Products "12" w).2 in
  (∀ id', id_matches Products id' go = false →
     (GET Products id' w1).1 = (GET Products id' w).1)
  ∧ (Forall (λ r', id_matches Products "12" r' = false) (delete 1%nat [chess; go]) →
       (GET Products "12" w1).1 = Ok (not_found Products)).
Proof.
  apply (delete_then_get Products "12" (shop [chess; go] []) [chess; go] 1 go).
  - vm_compute. reflexivity.
  - vm_compute. reflexivity.
Defined.

Lemma updated_record_known_values r body :
  is_Some (r !! "id") → spread body ⊆ r → updated_record r body = r.
Proof.
  intros Hid Hsub. apply map_eq. intros k. destruct (decide (k = "id")) as [->|Hk].
  - by apply updated_record_id.
  - rewrite updated_record_other by done.
    destruct (spread body !! k) as [v|] eqn:Hb; [|by destruct (r !! k)].
    by rewrite (lookup_weaken _ _ _ _ Hb Hsub).
Qed.

(** X10. An update whose body carries only fields the record already has,
    with the values it already has (the empty body among them), answers
    with the record as it was and stores the collection as it was, and
    still rewrites the file. *)
Theorem update_without_change_rewrites (R : resource) (id : string)
    (body : json) (w : world) (c : list record) (i : nat) (r : record) :
  stores w (store_path R) c →
  first_match R id c = Some (i, r) →
  spread body ⊆ r →
  let w1 := (PUT R id body w).2 in
  (PUT R id body w).1 = Ok (Response 200 (JObj r))
  ∧ stores w1 (store_path R) c
  ∧ writes w1 = writes w ++ [Written (store_path R) (Encodes (collection_json c))].
Proof.
  intros Hs Hf Hsub w1. unfold w1.
  rewrite (PUT_stores R id body w c Hs), Hf. cbn [fst snd].
  apply first_match_lookup in Hf as [Hi Hm%matched_has_id].
  rewrite (updated_record_known_values r body Hm Hsub), (list_insert_id c i r Hi).
  split_and!; [done | apply saved_stores |].
  unfold writes, saved. simpl. by rewrite filter_app.
Qed.

Lemma update_without_change_rewrites_witness :
  let w := shop [] [alice] in
  let w1 := (PUT Users "V1StGX" (JObj ∅) w).2 in
  (PUT Users "V1StGX" (JObj ∅) w).1 = Ok (Response 200 (JObj alice))
  ∧ stores w1 usersPath [alice]
  ∧ writes w1 = writes w ++ [Written usersPath (Encodes (collection_json [alice]))].
Proof.
  apply (update_without_change_rewrites Users "V1StGX" (JObj ∅) (shop [] [alice])
           [alice] 0 alice).
  - vm_compute. reflexivity.
  - vm_compute. reflexivity.
  - apply map_empty_subseteq.
Defined.

(** ** The ids of a collection *)




(** ** Creates *)

Lemma post_user_stores token body w c :
  stores w usersPath c →
  post_user token body w =
    (Ok (Response 201 (JObj (spread body ∪ {[ "id" := JStr token ]}))),
     saved w usersPath
       (collection_json (c ++ [spread body ∪ {[ "id" := JStr token ]}]))).
Proof.
  intros Hs. unfold post_user.
  rewrite (run_bind _ _ _ _ _ (readData_stores _ _ _ Hs)).
  unfold collection_json. cbn [as_array]. rewrite run_lift_bind.
  unfold mbind, M_bind. rewrite (writeData_stores _ _ _ _ Hs).
  rewrite fmap_app. reflexivity.
Qed.

Lemma union_singleton_id_r (m : record) (x v : json) :
  m !! "id" = Some v → m ∪ {[ "id" := x ]} = m.
Proof.
  intros Hm. apply map_eq. intros k. rewrite lookup_union.
  destruct (decide (k = "id")) as [->|Hk].
  - by rewrite Hm.
  - rewrite lookup_singleton_ne by done. by destruct (m !! k).
Qed.

(** The collection can be created into: for products, the ids that
    [Math.max] receives are integers. *)
Lemma CREATE_stores R coerce token body w c :
  stores w (store_path R) c →
  (R = Products → Forall has_integer_id c) →
  ∃ x : json,
    CREATE R coerce token body w =
      (Ok (Response 201 (JObj (spread body ∪ {[ "id" := x ]}))),
       saved w (store_path R)
         (collection_json (c ++ [spread body ∪ {[ "id" := x ]}])))
    ∧ x = match R with
          | Products => JNum (spec_next_id c)
          | Users => JStr token
          end.
Proof.
  intros Hs Hc. destruct R; simpl in *.
  - exists (JNum (spec_next_id c)). split; [|done].
    by rewrite (post_product_stores coerce body w c Hs (Hc eq_refl)).
  - exists (JStr token). split; [|done]. by apply post_user_stores.
Qed.

(** X12. When the body of a create has an id field, the created record is
    the body as it was sent: its id is the one of the body, not the one
    the handler computed or drew. When that id is already in the
    collection, the ids of the stored collection are no longer pairwise
    distinct. *)
Theorem body_id_replaces_assigned_id (R : resource)
    (coerce : json → result number) (token : string) (body : json)
    (w : world) (c : list record) (v : json) :
  stores w (store_path R) c →
  (R = Products → Forall has_integer_id c) →
  spread body !! "id" = Some v →
  let w1 := (CREATE R coerce token body w).2 in
  (CREATE R coerce token body w).1 = Ok (Response 201 (JObj (spread body)))
  ∧ stores w1 (store_path R) (c ++ [spread body])
  ∧ (Some v ∈ ids c → ¬ NoDup (ids (c ++ [spread body]))).
Proof.
  intros Hs Hc Hv w1. unfold w1.
  destruct (CREATE_stores R coerce token body w c Hs Hc) as (x & -> & _).
  rewrite (union_singleton_id_r _ x v Hv). cbn [fst snd].
  split_and!; [done | apply saved_stores |].
  intros Hin. unfold ids. rewrite fmap_app. simpl. rewrite Hv.
  rewrite NoDup_app. intros (_ & Hdisj & _).
  apply (Hdisj (Some v) Hin). apply list_elem_of_singleton. done.
Qed.

Lemma body_id_replaces_assigned_id_witness :
  let body := JObj {[ "id" := JStr "V1StGX"; "name" := JStr "Bob" ]} in
  let w := shop [] [alice] in
  let w1 := (CREATE Users (λ _, Ok NaN) "k3Zp_q" body w).2 in
  (CREATE Users (λ _, Ok NaN) "k3Zp_q" body w).1 = Ok (Response 201 (JObj (spread body)))
  ∧ stores w1 usersPath ([alice] ++ [spread body])
  ∧ (Some (JStr "V1StGX") ∈ ids [alice] → ¬ NoDup (ids ([alice] ++ [spread body]))).
Proof.
  apply (body_id_replaces_assigned_id Users (λ _, Ok NaN) "k3Zp_q" _
           (shop [] [alice]) [alice] (JStr "V1StGX")).
  - vm_compute. reflexivity.
  - intros H. discriminate H.
  - reflexivity.
Defined.

Lemma first_match_snoc R id c r :
  first_match R id (c ++ [r]) =
    match first_match R id c with
    | Some p => Some p
    | None => if id_matches R id r then Some (length c, r) else None
    end.
Proof.
  unfold first_match. destruct (list_find _ c) as [[i x]|] eqn:Hf.
  - by apply list_find_app_l.
  - rewrite list_find_app_r by done. cbn [list_find].
    destruct (id_matches R id r) eqn:E.
    + rewrite decide_True by done. simpl. f_equal.
    + by rewrite decide_False.
Qed.

(** X13. A create of a user whose body has no id field answers 201 with
    the fields of the body and the drawn token as id, and appends that
    record to the stored collection. Nothing checks that the token is new:
    a get of the token answers with the created user when no user of the
    collection had that id, and with the first user that had it
    otherwise. *)
Theorem create_user_then_get (token : string) (body : json) (w : world)
    (c : list record) :
  stores w usersPath c →
  spread body !! "id" = None →
  let created := <[ "id" := JStr token ]> (spread body) in
  let w1 := (post_user token body w).2 in
  (post_user token body w).1 = Ok (Response 201 (JObj created))
  ∧ stores w1 usersPath (c ++ [created])
  ∧ (get_user token w1).1 =
      Ok (Response 200 (JObj (default created (found Users token c)))).
Proof.
  intros Hs Hb created w1. unfold w1.
  rewrite (post_user_stores token body w c Hs).
  rewrite <- (insert_union_singleton_r _ _ _ Hb). fold created. cbn [fst snd].
  pose proof (saved_stores w usersPath (c ++ [created])) as Hs1.
  split_and!; [done | done |].
  pose proof (GET_stores Users token _ _ Hs1) as Hg. simpl in Hg. rewrite Hg.
  cbn [fst]. rewrite first_match_snoc. unfold found.
  destruct (first_match Users token c) as [[i r]|]; [done|].
  assert (id_matches Users token created = true) as ->; [|done].
  apply id_matches_Users. unfold created. apply lookup_insert_eq.
Qed.

Lemma create_user_then_get_witness :
  let body := JObj {[ "name" := JStr "Bob"; "age" := JNum 41 ]} in
  let created := <[ "id" := JStr "V1StGX" ]> (spread body) in
  let w1 := (post_user "V1StGX" body (shop [] [alice])).2 in
  (post_user "V1StGX" body (shop [] [alice])).1 = Ok (Response 201 (JObj created))
  ∧ stores w1 usersPath ([alice] ++ [created])
  ∧ (get_user "V1StGX" w1).1 =
      Ok (Response 200 (JObj (default created (found Users "V1StGX" [alice])))).
Proof.
  apply (create_user_then_get "V1StGX" _ (shop [] [alice]) [alice]).
  - vm_compute. reflexivity.
  - reflexivity.
Defined.

(** X14. Creates keep the ids of a collection pairwise distinct when the
    body has no id field and, for a user, the drawn token is not the id
    of a user of the collection; a product gets an id above every id of
    the collection. *)
Theorem create_keeps_ids_distinct (R : resource) (coerce : json → result number)
    (token : string) (body : json) (w : world) (c : list record) :
  stores w (store_path R) c →
  (R = Products → Forall has_integer_id c) →
  (R = Users → Some (JStr token) ∉ ids c) →
  spread body !! "id" = None →
  NoDup (ids c) →
  ∃ created,
    (CREATE R coerce token body w).1 = Ok (Response 201 (JObj created))
    ∧ stores (CREATE R coerce token body w).2 (store_path R) (c ++ [created])
    ∧ NoDup (ids (c ++ [created]))
    ∧ (R = Products → ∀ r, r ∈ c → id_of r < id_of created).
Proof.
  intros Hs Hc Htok Hb Hnd.
  destruct (CREATE_stores R coerce token body w c Hs Hc) as (x & -> & Hx).
  rewrite <- (insert_union_singleton_r _ _ _ Hb). cbn [fst snd].
  eexists. split_and!; [done | apply saved_stores | |].
  - unfold ids. rewrite fmap_app. simpl. rewrite lookup_insert_eq.
    apply NoDup_app. split_and!; [done | | apply NoDup_singleton].
    intros o Ho ->%list_elem_of_singleton. destruct R; subst x.
    + apply list_elem_of_fmap in Ho as (r & Hr & Hin).
      pose proof (spec_next_id_above c r Hin) as Hlt.
      unfold id_of in Hlt. rewrite <- Hr in Hlt. lia.
    + by apply Htok.
  - intros ->. subst x. intros r Hr. unfold id_of at 2.
    rewrite lookup_insert_eq. by apply spec_next_id_above.
Qed.

Lemma create_keeps_ids_distinct_witness :
  ∃ created,
    (CREATE Products (λ _, Ok NaN) "" (JObj {[ "name" := JStr "Catan" ]})
            (shop [chess; go] [])).1 = Ok (Response 201 (JObj created))
    ∧ stores (CREATE Products (λ _, Ok NaN) "" (JObj {[ "name" := JStr "Catan" ]})
                     (shop [chess; go] [])).2 dataPath ([chess; go] ++ [created])
    ∧ NoDup (ids ([chess; go] ++ [created]))
    ∧ (Products = Products → ∀ r, r ∈ [chess; go] → id_of r < id_of created).
Proof.
  apply (create_keeps_ids_distinct Products (λ _, Ok NaN) "" _ (shop [chess; go] [])).
  - vm_compute. reflexivity.
  - intros _. repeat constructor; [exists 1 | exists 12];
      (split; [reflexivity | reflexivity]).
  - intros H. discriminate H.
  - reflexivity.
  - change (NoDup [Some (JNum 1); Some (JNum 12)]).
    apply NoDup_cons. split; [|apply NoDup_singleton].
    intros H%list_elem_of_singleton. discriminate H.
Defined.

(** ** Sequences of requests on products *)

Lemma maximum_elem z zs : maximum z zs ∈ z :: zs.
Proof.
  revert z. induction zs as [|z' zs IH]; intros z; simpl.
  - apply list_elem_of_singleton. done.
  - destruct (Z.max_spec z (maximum z' zs)) as [[_ ->]|[_ ->]].
    + apply list_elem_of_further, IH.
    + apply list_elem_of_here.
Qed.

Lemma spec_next_id_snoc c r :
  id_of r = spec_next_id c → spec_next_id (c ++ [r]) = spec_next_id c + 1.
Proof.
  intros Hr.
  assert (∀ r', r' ∈ c ++ [r] → id_of r' < spec_next_id (c ++ [r])) as Habove
    by apply spec_next_id_above.
  pose proof (Habove r) as Hlt. rewrite Hr in Hlt.
  assert (spec_next_id c < spec_next_id (c ++ [r])) as Hlow.
  { apply Hlt. apply elem_of_app. right. by apply list_elem_of_singleton. }
  clear Hlt Habove. unfold spec_next_id at 2 in Hlow. unfold spec_next_id at 1.
  rewrite fmap_app in *. simpl in *.
  destruct ((id_of <$> c) ++ [id_of r]) as [|z zs] eqn:E.
  { by destruct (id_of <$> c). }
  pose proof (maximum_elem z zs) as Hin. rewrite <- E in Hin.
  apply elem_of_app in Hin as [Hin|Hin%list_elem_of_singleton].
  - apply list_elem_of_fmap in Hin as (r' & Hr' & Hin).
    pose proof (spec_next_id_above c r' Hin). lia.
  - lia.
Qed.

Lemma first_match_created c s created :
  Forall has_integer_id c →
  parseInt s = Num (spec_next_id c) →
  created !! "id" = Some (JNum (spec_next_id c)) →
  first_match Products s (c ++ [created]) = Some (length c, created).
Proof.
  intros Hc Hs Hid. rewrite first_match_snoc.
  assert (first_match Products s c = None) as ->.
  { apply first_match_None, Forall_forall. intros r Hr.
    pose proof (spec_next_id_above c r Hr) as Hlt.
    rewrite Forall_forall in Hc. destruct (Hc r Hr) as (z & Hz & _).
    destruct (id_matches Products s r) eqn:E; [|done].
    apply id_matches_Products in E as (z' & Hz' & Hp).
    unfold id_of in Hlt. rewrite Hz in Hlt. rewrite Hz in Hz'. rewrite Hs in Hp.
    injection Hz' as ->. injection Hp as Hp. lia. }
  assert (id_matches Products s created = true) as ->; [|done].
  apply id_matches_Products. eauto.
Qed.

(** X15. A create followed by the delete of the returned id leaves the
    stored collection as it was before the create, and the next create is
    assigned the same id again: the id of a deleted product is reused when
    it was the largest. *)
Theorem create_delete_create (coerce : json → result number) (body body' : json)
    (w : world) (c : list record) :
  stores w dataPath c →
  Forall has_integer_id c →
  spread body !! "id" = None →
  spread body' !! "id" = None →
  let n := spec_next_id c in
  let w1 := (post_product coerce body w).2 in
  let w2 := (delete_product (decimal n) w1).2 in
  (post_product coerce body w).1
    = Ok (Response 201 (JObj (<[ "id" := JNum n ]> (spread body))))
  ∧ (delete_product (decimal n) w1).1 = Ok (confirmation Products)
  ∧ stores w2 dataPath c
  ∧ (post_product coerce body' w2).1
    = Ok (Response 201 (JObj (<[ "id" := JNum n ]> (spread body')))).
Proof.
  intros Hs Hc Hb Hb' n w1 w2.
  assert (post_product coerce body w =
            (Ok (Response 201 (JObj (<[ "id" := JNum n ]> (spread body)))),
             saved w dataPath
               (collection_json (c ++ [<[ "id" := JNum n ]> (spread body)]))))
    as H1.
  { rewrite (post_product_stores coerce body w c Hs Hc).
    by rewrite (created_record_no_id _ _ Hb). }
  assert (stores w1 dataPath (c ++ [<[ "id" := JNum n ]> (spread body)])) as Hs1.
  { unfold w1. rewrite H1. apply saved_stores. }
  pose proof (DELETE_stores Products (decimal n) w1 _ Hs1) as H2.
  rewrite (first_match_created c (decimal n)) in H2;
    [| done | apply parseInt_decimal | apply lookup_insert_eq].
  rewrite (delete_middle c []), app_nil_r in H2. simpl in H2.
  assert (stores w2 dataPath c) as Hs2.
  { unfold w2. rewrite H2. apply saved_stores. }
  split_and!.
  - by rewrite H1.
  - by rewrite H2.
  - done.
  - rewrite (post_product_stores coerce body' w2 c Hs2 Hc).
    by rewrite (created_record_no_id _ _ Hb').
Qed.

Lemma create_delete_create_witness :
  let body := JObj {[ "name" := JStr "Catan" ]} in
  let body' := JObj {[ "name" := JStr "Azul" ]} in
  let w := shop [chess; go] [] in
  let w1 := (post_product (λ _, Ok NaN) body w).2 in
  let w2 := (delete_product "13" w1).2 in
  (post_product (λ _, Ok NaN) body w).1
    = Ok (Response 201 (JObj (<[ "id" := JNum 13 ]> (spread body))))
  ∧ (delete_product "13" w1).1 = Ok (confirmation Products)
  ∧ stores w2 dataPath [chess; go]
  ∧ (post_product (λ _, Ok NaN) body' w2).1
    = Ok (Response 201 (JObj (<[ "id" := JNum 13 ]> (spread body')))).
Proof.
  apply (create_delete_create (λ _, Ok NaN) (JObj {[ "name" := JStr "Catan" ]})
           (JObj {[ "name" := JStr "Azul" ]}) (shop [chess; go] []) [chess; go]).
  - vm_compute. reflexivity.
  - repeat constructor; [exists 1 | exists 12];
      (split; [reflexivity | reflexivity]).
  - reflexivity.
  - reflexivity.
Defined.

Lemma created_has_integer_id c b :
  Forall has_integer_id c →
  spec_next_id c < 2 ^ 53 →
  has_integer_id (<[ "id" := JNum (spec_next_id c) ]> (spread b)).
Proof.
  intros Hc Hlt. exists (spec_next_id c). split; [apply lookup_insert_eq|].
  unfold safe_integer. unfold spec_next_id in *.
  destruct c as [|r c]; [done|].
  change (id_of <$> r :: c) with (id_of r :: (id_of <$> c)) in *. cbn iota in *.
  pose proof (maximum_bound (id_of r) (id_of <$> c) (id_of r)
                (list_elem_of_here _ _)) as Hge.
  apply Forall_cons in Hc as [(z & Hz & Hsafe) _].
  unfold id_of at 1 in Hge. rewrite Hz in Hge. unfold safe_integer in Hsafe. lia.
Qed.

(** X16. Creates of bodies without an id field, served one after the
    other on a collection of products, each answer 201 with the fields of
    their body and the next consecutive id, and the list handler then
    answers with the records of the collection followed by the created
    ones, in the order of the requests, none left out. *)
Theorem list_after_creates (coerce : json → result number) (bodies : list json)
    (w : world) (c : list record) :
  stores w dataPath c →
  Forall has_integer_id c →
  Forall (λ b, spread b !! "id" = None) bodies →
  spec_next_id c + Z.of_nat (length bodies) ≤ 2 ^ 53 →
  let session := serve (post_product coerce <$> bodies) w in
  ∃ rs : list record,
    session.1 = (λ r, Ok (Response 201 (JObj r))) <$> rs
    ∧ length rs = length bodies
    ∧ (∀ k b, bodies !! k = Some b →
         rs !! k = Some (<[ "id" := JNum (spec_next_id c + Z.of_nat k) ]> (spread b)))
    ∧ get_products session.2
      = (Ok (Response 200 (collection_json (c ++ rs))), session.2).
Proof.
  revert w c. induction bodies as [|b bodies IH]; intros w c Hs Hc Hb Hn session.
  - exists []. unfold session. simpl. split_and!; [done | done | done |].
    rewrite app_nil_r. unfold get_products.
    by rewrite (run_bind _ _ _ _ _ (readData_stores _ _ _ Hs)).
  - apply Forall_cons in Hb as [Hb Hbs]. simpl in Hn.
    set (r := <[ "id" := JNum (spec_next_id c) ]> (spread b)).
    assert (post_product coerce b w =
              (Ok (Response 201 (JObj r)),
               saved w dataPath (collection_json (c ++ [r])))) as H1.
    { rewrite (post_product_stores coerce b w c Hs Hc).
      by rewrite (created_record_no_id _ _ Hb). }
    assert (spec_next_id (c ++ [r]) = spec_next_id c + 1) as Hnext.
    { apply spec_next_id_snoc. unfold id_of, r. by rewrite lookup_insert_eq. }
    destruct (IH (saved w dataPath (collection_json (c ++ [r]))) (c ++ [r]))
      as (rs & Hresp & Hlen & Hrs & Hlist).
    + apply saved_stores.
    + apply Forall_app. split; [done|]. apply Forall_singleton.
      apply created_has_integer_id; [done|lia].
    + done.
    + rewrite Hnext. lia.
    + exists (r :: rs). unfold session. cbn [fmap list_fmap serve].
      change (list_fmap json (M response) (post_product coerce) bodies)
        with (post_product coerce <$> bodies).
      rewrite H1.
      destruct (serve (post_product coerce <$> bodies)
                  (saved w dataPath (collection_json (c ++ [r])))) as [out w'].
      simpl in *. split_and!.
      * by rewrite Hresp.
      * by rewrite Hlen.
      * intros [|k] b' Hk; simpl in *.
        -- injection Hk as <-. unfold r. do 3 f_equal. lia.
        -- rewrite (Hrs k b' Hk), Hnext. do 3 f_equal. lia.
      * by rewrite <- app_assoc in Hlist.
Qed.

Lemma list_after_creates_witness :
  let bodies := [JObj {[ "name" := JStr "Catan" ]}; JObj {[ "name" := JStr "Azul" ]}] in
  let session := serve (post_product (λ _, Ok NaN) <$> bodies) (shop [chess; go] []) in
  ∃ rs : list record,
    session.1 = (λ r, Ok (Response 201 (JObj r))) <$> rs
    ∧ length rs = length bodies
    ∧ (∀ k b, bodies !! k = Some b →
         rs !! k = Some (<[ "id" := JNum (spec_next_id [chess; go] + Z.of_nat k) ]>
                           (spread b)))
    ∧ get_products session.2
      = (Ok (Response 200 (collection_json ([chess; go] ++ rs))), session.2).
Proof.
  apply (list_after_creates (λ _, Ok NaN)
           [JObj {[ "name" := JStr "Catan" ]}; JObj {[ "name" := JStr "Azul" ]}]
           (shop [chess; go] []) [chess; go]).
  - vm_compute. reflexivity.
  - repeat constructor; [exists 1 | exists 12];
      (split; [reflexivity | reflexivity]).
  - repeat constructor.
  - vm_compute. discriminate.
Defined.

(** ** A record without an id *)

Lemma foldl_max_number_NaN l : foldl max_number NaN l = NaN.
Proof. induction l as [|x l IH]; [done|]. simpl. exact IH. Qed.

Lemma Math_max_NaN l : NaN ∈ l → Math_max l = NaN.
Proof.
  unfold Math_max. generalize NegInfinity.
  induction l as [|x l IH]; intros a Hin; [by apply elem_of_nil in Hin|].
  apply elem_of_cons in Hin as [<-|Hin]; simpl.
  - destruct a; apply foldl_max_number_NaN.
  - by apply IH.
Qed.

Lemma mapM_ToNumber_ids coerce (c : list record) :
  Forall (λ r, r !! "id" = None ∨ ∃ z : Z, r !! "id" = Some (JNum z)) c →
  mapM (ToNumber coerce) (ids c) = Ok (number_of_id <$> ids c).
Proof.
  unfold ids. induction 1 as [|r c Hr _ IH]; [done|].
  cbn [fmap list_fmap mapM]. cbn [fmap list_fmap mapM] in IH.
  destruct Hr as [->|[z ->]]; cbn [ToNumber mbind result_bind number_of_id];
    by rewrite IH.
Qed.

(** X17. When one record of a collection of products has no id field (the
    others having a number or none), [Math.max] answers [NaN]: a create
    whose body has no id field answers 201 with a record whose id is
    [null], and stores it. No get ever answers with that record. *)
Theorem missing_id_makes_new_id_null (coerce : json → result number)
    (body : json) (w : world) (c : list record) :
  stores w dataPath c →
  Forall (λ r, r !! "id" = None ∨ ∃ z : Z, r !! "id" = Some (JNum z)) c →
  Exists (λ r, r !! "id" = None) c →
  spread body !! "id" = None →
  let created := <[ "id" := JNull ]> (spread body) in
  let w1 := (post_product coerce body w).2 in
  (post_product coerce body w).1 = Ok (Response 201 (JObj created))
  ∧ stores w1 dataPath (c ++ [created])
  ∧ (∀ s, (get_product s w1).1 = (get_product s w).1).
Proof.
  intros Hs Hc Hex Hb created w1.
  assert (next_id coerce (JObj <$> c) = Ok NaN) as Hnext.
  { unfold next_id. destruct c as [|r c]; [by apply Exists_nil in Hex|].
    change (JObj <$> r :: c) with (JObj r :: (JObj <$> c)).
    change (JObj r :: (JObj <$> c)) with (JObj <$> r :: c).
    rewrite mapM_dot_id_records. cbn [mbind result_bind].
    change ((λ r0 : record, r0 !! "id") <$> r :: c) with (ids (r :: c)).
    rewrite (mapM_ToNumber_ids coerce _ Hc). cbn [mbind result_bind].
    rewrite Math_max_NaN; [done|].
    apply Exists_exists in Hex as (r' & Hin & Hr').
    apply list_elem_of_fmap. exists None. split; [done|].
    apply list_elem_of_fmap. exists r'. by rewrite Hr'. }
  assert (post_product coerce body w =
            (Ok (Response 201 (JObj created)),
             saved w dataPath (collection_json (c ++ [created])))) as H1.
  { unfold post_product.
    rewrite (run_bind _ _ _ _ _ (readData_stores _ _ _ Hs)).
    unfold collection_json. cbn [as_array]. rewrite run_lift_bind, run_lift_bind.
    rewrite Hnext. cbn [json_of_number].
    rewrite <- (insert_union_singleton_r _ _ _ Hb). fold created.
    unfold mbind, M_bind. rewrite (writeData_stores _ _ _ _ Hs).
    by rewrite fmap_app. }
  unfold w1. rewrite H1. cbn [fst snd].
  pose proof (saved_stores w dataPath (c ++ [created])) as Hs1.
  split_and!; [done | done |].
  intros s. pose proof (GET_stores Products s _ _ Hs1) as Hg1.
  pose proof (GET_stores Products s _ _ Hs) as Hg. simpl in Hg1, Hg.
  rewrite Hg1, Hg. cbn [fst]. rewrite first_match_snoc.
  destruct (first_match Products s c) as [[i r]|]; [done|].
  assert (id_matches Products s created = false) as ->; [|done].
  simpl. unfold created. by rewrite lookup_insert_eq.
Qed.

Lemma missing_id_makes_new_id_null_witness :
  let c : list record := [chess; {[ "name" := JStr "Go" ]}] in
  let body := JObj {[ "name" := JStr "Catan" ]} in
  let created := <[ "id" := JNull ]> (spread body) in
  let w1 := (post_product (λ _, Ok NaN) body (shop c [])).2 in
  (post_product (λ _, Ok NaN) body (shop c [])).1 = Ok (Response 201 (JObj created))
  ∧ stores w1 dataPath (c ++ [created])
  ∧ (∀ s, (get_product s w1).1 = (get_product s (shop c [])).1).
Proof.
  intros c.
  apply (missing_id_makes_new_id_null (λ _, Ok NaN) _ (shop c []) c).
  - vm_compute. reflexivity.
  - apply Forall_cons. split; [right; by exists 1|].
    apply Forall_cons. split; [left; reflexivity | apply Forall_nil_2].
  - apply Exists_cons_tl, Exists_cons_hd. reflexivity.
  - reflexivity.
Defined.

(** ** The first version of the server *)

(** X18. The list of products of the first version of the server, which
    reads the file without a [try], answers as the current one when the
    file can be read and holds JSON; when the file is missing, is a
    directory, cannot be read or does not parse, it throws where the
    current one answers 200 with the empty array. Neither changes the
    disk. *)
Theorem early_list_throws_where_current_degrades (w : world) :
  match disk w !! dataPath with
  | Some (File true _ (Encodes v)) =>
      get_products_early w = (Ok (Response 200 v), w)
      ∧ get_products w = (Ok (Response 200 v), w)
  | _ =>
      (∃ e, get_products_early w = (Throw e, w))
      ∧ (get_products w).1 = Ok (Response 200 (JArr []))
      ∧ disk (get_products w).2 = disk w
  end.
Proof.
  pose proof (readData_cases dataPath w) as H.
  unfold get_products_early, get_products, readData_early.
  unfold read_and_parse in H. rewrite !run_bind_cases.
  rewrite run_bind_cases in H. unfold readFileSync in *.
  destruct (disk w !! dataPath) as [[|[] wr [|v]]|]; simpl in *;
    rewrite ?H; simpl; eauto.
Qed.

(** ** White space before the id of a product *)

Lemma trim_start_blank ws s : blank ws = true → trim_start (ws +:+ s) = trim_start s.
Proof.
  induction ws as [|a ws IH]; [done|]. simpl blank.
  intros [Ha Hws]%andb_true_iff.
  change (String a ws +:+ s) with (String a (ws +:+ s)).
  cbn [trim_start]. rewrite Ha. by apply IH.
Qed.

Lemma parseInt_blank ws s : blank ws = true → parseInt (ws +:+ s) = parseInt s.
Proof. intros H. unfold parseInt. by rewrite (trim_start_blank ws s H). Qed.

(** X19. Tabs, line breaks and spaces before the id in the path of a
    product request are ignored: get, update and delete do what they do
    for the id without them, in every world. *)
Theorem blank_prefix_is_ignored (ws id : string) (body : json) (w : world) :
  blank ws = true →
  get_product (ws +:+ id) w = get_product id w
  ∧ put_product (ws +:+ id) body w = put_product id body w
  ∧ delete_product (ws +:+ id) w = delete_product id w.
Proof.
  intros H. unfold get_product, put_product, delete_product.
  by rewrite (parseInt_blank ws id H).
Qed.

Lemma blank_prefix_is_ignored_witness :
  get_product "  12" (shop [chess; go] []) = get_product "12" (shop [chess; go] [])
  ∧ put_product "  12" (JObj ∅) (shop [chess; go] [])
    = put_product "12" (JObj ∅) (shop [chess; go] [])
  ∧ delete_product "  12" (shop [chess; go] [])
    = delete_product "12" (shop [chess; go] []).
Proof.
  apply (blank_prefix_is_ignored "  " "12" (JObj ∅) (shop [chess; go] [])).
  reflexivity.
Defined.

(** ** Arrays that do not only hold records *)

Section SearchPrefix.

Context (callback : json → result bool) (P : record → bool).
Hypothesis callback_record : ∀ r, callback (JObj r) = Ok (P r).

Lemma findIndex_from_prefix (c : list record) (x : json) (rest : list json)
    (i0 : nat) :
  Forall (λ r, P r = false) c →
  findIndex_from callback ((JObj <$> c) ++ x :: rest) i0 =
    match callback x with
    | Ok true => Ok (Some (i0 + length c)%nat)
    | Ok false => findIndex_from callback rest (S (i0 + length c))
    | Throw e => Throw e
    end.
Proof.
  intros Hc. revert i0. induction Hc as [|r c Hr _ IH]; intros i0.
  - simpl. rewrite Nat.add_0_r. reflexivity.
  - cbn [fmap list_fmap app findIndex_from length].
    change (list_fmap record json JObj c) with (JObj <$> c).
    rewrite callback_record, Hr, IH. by rewrite <- !Nat.add_succ_comm.
Qed.

Lemma find_in_prefix (c : list record) (x : json) (rest : list json) :
  Forall (λ r, P r = false) c →
  find_in callback ((JObj <$> c) ++ x :: rest) =
    match callback x with
    | Ok true => Ok (Some x)
    | Ok false => find_in callback rest
    | Throw e => Throw e
    end.
Proof.
  induction 1 as [|r c Hr _ IH]; [done|].
  cbn [fmap list_fmap app find_in].
  change (list_fmap record json JObj c) with (JObj <$> c).
  by rewrite callback_record, Hr, IH.
Qed.

End SearchPrefix.

(** X20. The search of get, update and delete stops at the first record
    that matches: whatever JSON values follow it in the array, [null]
    included, they are not looked at, and are stored again as they
    were. *)
Theorem search_stops_at_first_match (R : resource) (id : string) (body : json)
    (w : world) (c : list record) (r : record) (rest : list json) :
  disk w !! store_path R
    = Some (File true true (Encodes (JArr ((JObj <$> c) ++ JObj r :: rest)))) →
  Forall (λ r', id_matches R id r' = false) c →
  id_matches R id r = true →
  GET R id w = (Ok (Response 200 (JObj r)), w)
  ∧ PUT R id body w
    = (Ok (Response 200 (JObj (updated_record r body))),
       saved w (store_path R)
         (JArr ((JObj <$> c) ++ JObj (updated_record r body) :: rest)))
  ∧ DELETE R id w
    = (Ok (confirmation R), saved w (store_path R) (JArr ((JObj <$> c) ++ rest))).
Proof.
  intros Hd Hc Hr. pose proof (readData_readable _ _ _ _ Hd) as Hread.
  assert (∀ v, writeData (store_path R) v w = (Ok (), saved w (store_path R) v))
    as Hwrite.
  { intros v. unfold writeData, try_catch, writeFileSync. by rewrite Hd. }
  assert (merged ((JObj <$> c) ++ JObj r :: rest) (0 + length c) body
          = Ok (JObj (updated_record r body))) as Hm.
  { unfold merged. rewrite <- (length_fmap JObj c) at 1.
    rewrite Nat.add_0_l, list_lookup_middle by done. reflexivity. }
  assert (<[ (0 + length c)%nat := JObj (updated_record r body) ]>
            ((JObj <$> c) ++ JObj r :: rest)
          = (JObj <$> c) ++ JObj (updated_record r body) :: rest) as Hi.
  { rewrite <- (length_fmap JObj c) at 1. rewrite Nat.add_0_l.
    rewrite <- (Nat.add_0_r (length (JObj <$> c))). by rewrite insert_app_r. }
  assert (delete (0 + length c)%nat ((JObj <$> c) ++ JObj r :: rest)
          = (JObj <$> c) ++ rest) as Hdel.
  { rewrite <- (length_fmap JObj c) at 1. rewrite Nat.add_0_l.
    apply delete_middle. }
  destruct R; unfold GET, PUT, DELETE, store_path in *;
    unfold get_product, put_product, delete_product, get_user, put_user,
      delete_user;
    rewrite !(run_bind _ _ _ _ _ Hread); cbn [as_array];
    rewrite !run_lift_bind; cbn [mbind result_bind].
  - rewrite (find_in_prefix _ (id_matches Products id)) by done.
    rewrite !(findIndex_from_prefix _ (id_matches Products id)) by done.
    cbn [dot_id mbind result_bind mret result_ret]. fold (id_matches Products id r).
    rewrite Hr. cbn [truthy]. rewrite run_lift_bind, Hm, Hi, Hdel.
    by rewrite !write_then_return, !Hwrite.
  - rewrite (find_in_prefix _ (id_matches Users id)) by done.
    rewrite !(findIndex_from_prefix _ (id_matches Users id)) by done.
    cbn [dot_id mbind result_bind mret result_ret]. fold (id_matches Users id r).
    rewrite Hr. cbn [truthy]. rewrite run_lift_bind, Hm, Hi, Hdel.
    by rewrite !write_then_return, !Hwrite.
Qed.

Lemma search_stops_at_first_match_witness :
  let w := {| disk := {[ dataPath := File true true
                          (Encodes (JArr ((JObj <$> [chess]) ++ JObj go :: [JNull]))) ]};
              journal := [] |} in
  GET Products "12" w = (Ok (Response 200 (JObj go)), w)
  ∧ PUT Products "12" (JObj ∅) w
    = (Ok (Response 200 (JObj (updated_record go (JObj ∅)))),
       saved w dataPath
         (JArr ((JObj <$> [chess]) ++ JObj (updated_record go (JObj ∅)) :: [JNull])))
  ∧ DELETE Products "12" w
    = (Ok (confirmation Products),
       saved w dataPath (JArr ((JObj <$> [chess]) ++ [JNull]))).
Proof.
  intros w.
  apply (search_stops_at_first_match Products "12" (JObj ∅) w [chess] go [JNull]).
  - reflexivity.
  - repeat constructor.
  - reflexivity.
Defined.

(** X21. When a [null] comes in the array before any record that matches,
    after records only, get, update and delete throw a TypeError on
    reading its id, and change nothing. *)
Theorem null_before_match_throws (R : resource) (id : string) (body : json)
    (w : world) (wr : bool) (c : list record) (rest : list json) :
  disk w !! store_path R
    = Some (File true wr (Encodes (JArr ((JObj <$> c) ++ JNull :: rest)))) →
  Forall (λ r', id_matches R id r' = false) c →
  GET R id w = (Throw TypeError, w)
  ∧ PUT R id body w = (Throw TypeError, w)
  ∧ DELETE R id w = (Throw TypeError, w).
Proof.
  intros Hd Hc. pose proof (readData_readable _ _ _ _ Hd) as Hread.
  destruct R; unfold GET, PUT, DELETE, store_path in *;
    unfold get_product, put_product, delete_product, get_user, put_user,
      delete_user;
    rewrite !(run_bind _ _ _ _ _ Hread); cbn [as_array];
    rewrite !run_lift_bind; cbn [mbind result_bind].
  - rewrite (find_in_prefix _ (id_matches Products id)) by done.
    by rewrite !(findIndex_from_prefix _ (id_matches Products id)) by done.
  - rewrite (find_in_prefix _ (id_matches Users id)) by done.
    by rewrite !(findIndex_from_prefix _ (id_matches Users id)) by done.
Qed.

Lemma null_before_match_throws_witness :
  let w := {| disk := {[ usersPath := File true true
                          (Encodes (JArr ((JObj <$> []) ++ JNull :: [JObj alice]))) ]};
              journal := [] |} in
  GET Users "V1StGX" w = (Throw TypeError, w)
  ∧ PUT Users "V1StGX" (JObj ∅) w = (Throw TypeError, w)
  ∧ DELETE Users "V1StGX" w = (Throw TypeError, w).
Proof.
  intros w.
  apply (null_before_match_throws Users "V1StGX" (JObj ∅) w true [] [JObj alice]).
  - reflexivity.
  - constructor.
Defined.

(** ** The store, written and read back *)

(** X22. [writeData] never throws. Either the file then holds the value
    written, one write is recorded, and a [readData] of a file that can be
    read answers with that value; or the disk is left as it was, and the
    failure is only reported on the console. *)
Theorem writeData_stores_or_drops (path : string) (v : json) (w : world) :
  let w1 := (writeData path v w).2 in
  (writeData path v w).1 = Ok ()
  ∧ ((∃ r, disk w1 = <[ path := File r true (Encodes v) ]> (disk w)
           ∧ journal w1 = journal w ++ [Written path (Encodes v)]
           ∧ (r = true → readData path w1 = (Ok v, w1)))
     ∨ (∃ e, disk w1 = disk w
             ∧ journal w1 = journal w ++ [ConsoleError path e])).
Proof.
  intros w1. split; [apply writeData_ok|]. unfold w1.
  unfold writeData, try_catch, writeFileSync.
  destruct (disk w !! path) as [[|r [] t]|] eqn:Hd; simpl.
  - right. by exists EISDIR.
  - left. exists r. split_and!; [done | done |]. intros ->.
    eapply readData_readable. simpl. apply lookup_insert_eq.
  - right. by exists EACCES.
  - left. exists true. split_and!; [done | done |]. intros _.
    eapply readData_readable. simpl. apply lookup_insert_eq.
Qed.

(** X23. [readData] reports on the console exactly when it degrades: its
    journal is unchanged when the file can be read and holds JSON, and
    gains one console error naming the path otherwise. It never records a
    write. *)
Theorem readData_reports_failures (path : string) (w : world) :
  match disk w !! path with
  | Some (File true _ (Encodes v)) => readData path w = (Ok v, w)
  | _ => ∃ e, journal (readData path w).2 = journal w ++ [ConsoleError path e]
  end
  ∧ writes (readData path w).2 = writes w.
Proof.
  split; [|apply readData_frame].
  pose proof (readData_cases path w) as H.
  unfold read_and_parse in H. rewrite run_bind_cases in H. unfold readFileSync in H.
  destruct (disk w !! path) as [[|[] wr [|v]]|]; simpl in H; rewrite H; eauto.
Qed.
